(** * CyberTruck telemetry firmware (STM32F103, [Core/Src/main.c])

    A shallow embedding of the acquisition-and-framing pipeline: the four
    quadrature decoders driven by edge interrupts, the register-level I2C
    driver of the MPU9250, the gyro-Z bias calibration, and the 49-byte
    UART frame with its XOR checksum.

    Conventions.
    - C integers are [Z] with the wrap-around of their type written out
      ([u8], [u16], [u32], [i32], [i16]).
    - [float] is IEEE-754 binary32, round to nearest even, taken from the
      Standard Library's executable specification [SpecFloat] at
      precision 24 and maximal exponent 128.
    - Global variables and the peripherals the program talks to are the
      fields of [Machine]; every C function that touches them is a
      function on [Machine]. *)

From Stdlib Require Import ZArith List Lia Bool QArith Qabs.
From Stdlib Require Import Floats.SpecFloat.
Import ListNotations.
Open Scope Z_scope.

(** ** Machine integers *)

Definition u8  (x : Z) : Z := x mod 2 ^ 8.
Definition u16 (x : Z) : Z := x mod 2 ^ 16.
Definition u32 (x : Z) : Z := x mod 2 ^ 32.

(** Conversion to a signed type of [w] bits (two's complement). *)
Definition signed (w : Z) (x : Z) : Z :=
  (x + 2 ^ (w - 1)) mod 2 ^ w - 2 ^ (w - 1).
Definition i8  : Z -> Z := signed 8.
Definition i16 : Z -> Z := signed 16.
Definition i32 : Z -> Z := signed 32.

Definition is_u8  (x : Z) : Prop := 0 <= x < 2 ^ 8.
Definition is_u32 (x : Z) : Prop := 0 <= x < 2 ^ 32.
Definition is_i16 (x : Z) : Prop := - 2 ^ 15 <= x < 2 ^ 15.
Definition is_i32 (x : Z) : Prop := - 2 ^ 31 <= x < 2 ^ 31.

(** [0; 1; ...; n-1], the values a counted [for] loop runs through. *)
Definition Zseq (n : Z) : list Z := map Z.of_nat (seq 0 (Z.to_nat n)).

(** Array read [a[i]] and write [a[i] = v]; the program only uses indices
    inside the array. *)
Definition rd (a : list Z) (i : Z) : Z := nth (Z.to_nat i) a 0.

Fixpoint wr_nat (a : list Z) (i : nat) (v : Z) : list Z :=
  match a, i with
  | [], _ => []
  | _ :: t, O => v :: t
  | h :: t, S j => h :: wr_nat t j v
  end.
Definition wr (a : list Z) (i : Z) (v : Z) : list Z := wr_nat a (Z.to_nat i) v.

(** ** Single-precision floats *)

Definition float : Type := spec_float.

Definition f_prec : Z := 24.
Definition f_emax : Z := 128.

Definition f_add : float -> float -> float := SFadd f_prec f_emax.
Definition f_sub : float -> float -> float := SFsub f_prec f_emax.
Definition f_mul : float -> float -> float := SFmul f_prec f_emax.
Definition f_div : float -> float -> float := SFdiv f_prec f_emax.

(** Conversion of a C integer to [float]. *)
Definition f_of_int (z : Z) : float := binary_normalize f_prec f_emax z 0 false.

Definition f_zero : float := S754_zero false.

(** The rational number a finite float denotes. *)
Definition F2Q (f : float) : Q :=
  match f with
  | S754_finite s m e =>
      let n := if s then Z.neg m else Z.pos m in
      match e with
      | Z0 => inject_Z n
      | Z.pos p => inject_Z (n * 2 ^ Z.pos p)
      | Z.neg p => n # (2 ^ p)
      end
  | _ => 0%Q
  end.

Definition is_finite (f : float) : bool :=
  match f with
  | S754_finite _ _ _ | S754_zero _ => true
  | _ => false
  end.

(** The float literals of the source, as the binary32 values a C compiler
    reads them as ([literal_nearest] below checks the rounding). *)
Definition lit_9_80665    : float := S754_finite false 10283018 (-20). (* 9.80665f *)
Definition lit_8192       : float := S754_finite false 8388608 (-10).  (* 8192.0f *)
Definition lit_0_001064225 : float := S754_finite false 9141623 (-33). (* 0.001064225f *)

(** Bit pattern of a binary32 value, as stored in memory. *)
Definition bits_of_float (f : float) : Z :=
  match f with
  | S754_zero s => if s then 2 ^ 31 else 0
  | S754_infinity s => (if s then 2 ^ 31 else 0) + 255 * 2 ^ 23
  | S754_nan => 255 * 2 ^ 23 + 2 ^ 22
  | S754_finite s m e =>
      (if s then 2 ^ 31 else 0) +
      (if Z.pos m <? 2 ^ 23 then Z.pos m
       else (e + 150) * 2 ^ 23 + (Z.pos m - 2 ^ 23))
  end.

(** Reading a bit pattern back as a binary32 value. *)
Definition float_of_bits (b : Z) : float :=
  let s := Z.testbit b 31 in
  let ex := (b / 2 ^ 23) mod 2 ^ 8 in
  let fr := b mod 2 ^ 23 in
  if ex =? 0 then
    match fr with
    | Z.pos m => S754_finite s m (-149)
    | _ => S754_zero s
    end
  else if ex =? 255 then
    (if fr =? 0 then S754_infinity s else S754_nan)
  else
    match fr + 2 ^ 23 with
    | Z.pos m => S754_finite s m (ex - 150)
    | _ => S754_nan
    end.

(** ** Quadrature decoder *)

Definition BIT (n : Z) : Z := Z.shiftl 1 n.

(** [READ_PIN(port, pin)], on the value of the port's input register. *)
Definition READ_PIN (idr : Z) (pin : Z) : bool :=
  negb (Z.land idr (BIT pin) =? 0).

Definition ENC_FLA_PIN : Z := 8.
Definition ENC_FLB_PIN : Z := 9.
Definition ENC_BLA_PIN : Z := 10.
Definition ENC_BLB_PIN : Z := 11.
Definition ENC_FRA_PIN : Z := 15.
Definition ENC_FRB_PIN : Z := 3.
Definition ENC_BRA_PIN : Z := 4.
Definition ENC_BRB_PIN : Z := 5.

Definition qLUT : list Z :=
  [ 0; -1;  1;  0;
    1;  0;  0; -1;
   -1;  0;  0;  1;
    0;  1; -1;  0].

(** The two channel levels packed as [(A << 1) | B]. *)
Definition phase_of (a b : bool) : Z :=
  u8 (Z.lor (Z.shiftl (if a then 1 else 0) 1) (if b then 1 else 0)).

(** The body shared by the four handlers:
    [enc += qLUT[(prev << 2) | ns]; prev = ns;] *)
Definition decode (enc prev ns : Z) : Z * Z :=
  (i32 (enc + rd qLUT (Z.lor (Z.shiftl prev 2) ns)), ns).

(** ** Machine state *)

(** One access of the program to a register of the I2C1 peripheral. *)
Inductive i2c_access : Type :=
| CR1_set (bits : Z)      (* I2C1->CR1 |= bits  *)
| CR1_clear (bits : Z)    (* I2C1->CR1 &= ~bits *)
| DR_write (v : Z)        (* I2C1->DR = v       *)
| DR_read                 (* ... = I2C1->DR     *)
| SR1_read                (* ... = I2C1->SR1    *)
| SR2_read.               (* ... = I2C1->SR2    *)

Record Machine : Type := mkMachine {
  (* globals of main.c *)
  encFL : Z; encFR : Z; encBL : Z; encBR : Z;        (* volatile int32_t *)
  prevFL : Z; prevFR : Z; prevBL : Z; prevBR : Z;    (* volatile uint8_t *)
  gyro_bias_z : float;
  systick_millis : Z;                                (* volatile uint32_t *)
  (* peripherals *)
  GPIOA_IDR : Z;                 (* input levels of port A *)
  GPIOB_IDR : Z;                 (* input levels of port B *)
  i2c_log : list i2c_access;     (* accesses to I2C1 so far, latest first *)
  uart_tx : list Z               (* bytes written to USART3->DR, oldest first *)
}.

Definition set_encFL (v : Z) (m : Machine) : Machine :=
  mkMachine v (encFR m) (encBL m) (encBR m) (prevFL m) (prevFR m) (prevBL m)
    (prevBR m) (gyro_bias_z m) (systick_millis m) (GPIOA_IDR m) (GPIOB_IDR m)
    (i2c_log m) (uart_tx m).
Definition set_encFR (v : Z) (m : Machine) : Machine :=
  mkMachine (encFL m) v (encBL m) (encBR m) (prevFL m) (prevFR m) (prevBL m)
    (prevBR m) (gyro_bias_z m) (systick_millis m) (GPIOA_IDR m) (GPIOB_IDR m)
    (i2c_log m) (uart_tx m).
Definition set_encBL (v : Z) (m : Machine) : Machine :=
  mkMachine (encFL m) (encFR m) v (encBR m) (prevFL m) (prevFR m) (prevBL m)
    (prevBR m) (gyro_bias_z m) (systick_millis m) (GPIOA_IDR m) (GPIOB_IDR m)
    (i2c_log m) (uart_tx m).
Definition set_encBR (v : Z) (m : Machine) : Machine :=
  mkMachine (encFL m) (encFR m) (encBL m) v (prevFL m) (prevFR m) (prevBL m)
    (prevBR m) (gyro_bias_z m) (systick_millis m) (GPIOA_IDR m) (GPIOB_IDR m)
    (i2c_log m) (uart_tx m).
Definition set_prevFL (v : Z) (m : Machine) : Machine :=
  mkMachine (encFL m) (encFR m) (encBL m) (encBR m) v (prevFR m) (prevBL m)
    (prevBR m) (gyro_bias_z m) (systick_millis m) (GPIOA_IDR m) (GPIOB_IDR m)
    (i2c_log m) (uart_tx m).
Definition set_prevFR (v : Z) (m : Machine) : Machine :=
  mkMachine (encFL m) (encFR m) (encBL m) (encBR m) (prevFL m) v (prevBL m)
    (prevBR m) (gyro_bias_z m) (systick_millis m) (GPIOA_IDR m) (GPIOB_IDR m)
    (i2c_log m) (uart_tx m).
Definition set_prevBL (v : Z) (m : Machine) : Machine :=
  mkMachine (encFL m) (encFR m) (encBL m) (encBR m) (prevFL m) (prevFR m) v
    (prevBR m) (gyro_bias_z m) (systick_millis m) (GPIOA_IDR m) (GPIOB_IDR m)
    (i2c_log m) (uart_tx m).
Definition set_prevBR (v : Z) (m : Machine) : Machine :=
  mkMachine (encFL m) (encFR m) (encBL m) (encBR m) (prevFL m) (prevFR m)
    (prevBL m) v (gyro_bias_z m) (systick_millis m) (GPIOA_IDR m) (GPIOB_IDR m)
    (i2c_log m) (uart_tx m).
Definition set_gyro_bias_z (v : float) (m : Machine) : Machine :=
  mkMachine (encFL m) (encFR m) (encBL m) (encBR m) (prevFL m) (prevFR m)
    (prevBL m) (prevBR m) v (systick_millis m) (GPIOA_IDR m) (GPIOB_IDR m)
    (i2c_log m) (uart_tx m).
Definition set_systick_millis (v : Z) (m : Machine) : Machine :=
  mkMachine (encFL m) (encFR m) (encBL m) (encBR m) (prevFL m) (prevFR m)
    (prevBL m) (prevBR m) (gyro_bias_z m) v (GPIOA_IDR m) (GPIOB_IDR m)
    (i2c_log m) (uart_tx m).
Definition set_pins (a b : Z) (m : Machine) : Machine :=
  mkMachine (encFL m) (encFR m) (encBL m) (encBR m) (prevFL m) (prevFR m)
    (prevBL m) (prevBR m) (gyro_bias_z m) (systick_millis m) a b
    (i2c_log m) (uart_tx m).
Definition set_i2c_log (v : list i2c_access) (m : Machine) : Machine :=
  mkMachine (encFL m) (encFR m) (encBL m) (encBR m) (prevFL m) (prevFR m)
    (prevBL m) (prevBR m) (gyro_bias_z m) (systick_millis m) (GPIOA_IDR m)
    (GPIOB_IDR m) v (uart_tx m).
Definition set_uart_tx (v : list Z) (m : Machine) : Machine :=
  mkMachine (encFL m) (encFR m) (encBL m) (encBR m) (prevFL m) (prevFR m)
    (prevBL m) (prevBR m) (gyro_bias_z m) (systick_millis m) (GPIOA_IDR m)
    (GPIOB_IDR m) (i2c_log m) v.

(** State after reset: the initialisers of the globals, nothing sent yet. *)
Definition reset (a b : Z) : Machine :=
  mkMachine 0 0 0 0 0 0 0 0 f_zero 0 a b [] [].

(** ** Edge-interrupt handlers *)

Definition rdFL (m : Machine) : Z :=
  phase_of (READ_PIN (GPIOA_IDR m) ENC_FLA_PIN) (READ_PIN (GPIOA_IDR m) ENC_FLB_PIN).
Definition rdFR (m : Machine) : Z :=
  phase_of (READ_PIN (GPIOA_IDR m) ENC_FRA_PIN) (READ_PIN (GPIOB_IDR m) ENC_FRB_PIN).
Definition rdBL (m : Machine) : Z :=
  phase_of (READ_PIN (GPIOA_IDR m) ENC_BLA_PIN) (READ_PIN (GPIOA_IDR m) ENC_BLB_PIN).
Definition rdBR (m : Machine) : Z :=
  phase_of (READ_PIN (GPIOB_IDR m) ENC_BRA_PIN) (READ_PIN (GPIOB_IDR m) ENC_BRB_PIN).

Definition isrFL (m : Machine) : Machine :=
  let ns := rdFL m in
  let '(e, p) := decode (encFL m) (prevFL m) ns in
  set_prevFL p (set_encFL e m).
Definition isrFR (m : Machine) : Machine :=
  let ns := rdFR m in
  let '(e, p) := decode (encFR m) (prevFR m) ns in
  set_prevFR p (set_encFR e m).
Definition isrBL (m : Machine) : Machine :=
  let ns := rdBL m in
  let '(e, p) := decode (encBL m) (prevBL m) ns in
  set_prevBL p (set_encBL e m).
Definition isrBR (m : Machine) : Machine :=
  let ns := rdBR m in
  let '(e, p) := decode (encBR m) (prevBR m) ns in
  set_prevBR p (set_encBR e m).

(** ** SysTick *)

Definition SysTick_Handler (m : Machine) : Machine :=
  set_systick_millis (u32 (systick_millis m + 1)) m.

Definition millis (m : Machine) : Z := systick_millis m.

(** ** Target and sensor *)

Inductive byte_order : Type := LittleEndian | BigEndian.

(** What the compiler and the device header ([main.h] pulls in the CMSIS
    header of the part, which is not among the sources) fix for the
    program: the byte order of objects in memory and the bit masks of the
    I2C1 registers. *)
Record Target : Type := mkTarget {
  endianness : byte_order;
  I2C_CR1_START : Z;
  I2C_CR1_STOP : Z;
  I2C_CR1_ACK : Z;
  I2C_SR1_SB : Z;
  I2C_SR1_ADDR : Z;
  I2C_SR1_TXE : Z;
  I2C_SR1_RXNE : Z
}.

(** The STM32F103: a little-endian Cortex-M3, with the masks of its
    reference manual. *)
Definition stm32f103 : Target :=
  mkTarget LittleEndian 0x0100 0x0200 0x0400 0x0001 0x0002 0x0080 0x0040.

(** The I2C1 peripheral with the sensor behind it: the value a status or
    data register presents, given every access made so far.  Any bus
    outcome (no acknowledge, a flag that never rises, garbage data) is
    some [Sensor]. *)
Record Sensor : Type := mkSensor {
  I2C_SR1 : list i2c_access -> Z;
  I2C_DR : list i2c_access -> Z
}.

(** ** State-passing notation *)

Definition M (A : Type) : Type := Machine -> A * Machine.

Definition ret {A : Type} (a : A) : M A := fun m => (a, m).
Definition bind {A B : Type} (c : M A) (k : A -> M B) : M B :=
  fun m => let '(a, m') := c m in k a m'.
Definition get {A : Type} (f : Machine -> A) : M A := fun m => (f m, m).
Definition modify (f : Machine -> Machine) : M unit := fun m => (tt, f m).

Declare Scope m_scope.
Delimit Scope m_scope with M.
Notation "x <- c ;; k" := (bind c (fun x => k))
  (at level 61, c at next level, right associativity) : m_scope.
Notation "' p <- c ;; k" := (bind c (fun x => let p := x in k))
  (at level 61, p pattern, c at next level, right associativity) : m_scope.
Notation "c ;; k" := (bind c (fun _ => k))
  (at level 61, right associativity) : m_scope.

(** A counted loop over the values [l] of its index, threading the loop
    state [a]. *)
Fixpoint for_each {A : Type} (l : list Z) (body : Z -> A -> M A) (a : A) : M A :=
  match l with
  | [] => ret a
  | i :: t => bind (body i a) (for_each t body)
  end.

(** ** The six values [mpu_read] writes through its pointers *)

Record Sample : Type := mkSample {
  ax : float; ay : float; az : float;
  gx : float; gy : float; gz : float
}.

Definition Sample_zero : Sample :=
  mkSample f_zero f_zero f_zero f_zero f_zero f_zero.

(** ** Packet structure *)

Module Payload.
Record t : Type := mk {
  t_ms : Z;                                     (* uint32_t *)
  ticksFL : Z; ticksFR : Z; ticksBL : Z; ticksBR : Z;   (* int32_t *)
  ax : float; ay : float; az : float;
  gx : float; gy : float; gz : float;
  flags : Z                                     (* uint16_t *)
}.
End Payload.

(** [sizeof(Payload)] for the packed struct: 4 + 4*4 + 6*4 + 2. *)
Definition sizeof_Payload : Z := 46.

(** The [n] bytes of [x], least significant first. *)
Fixpoint le_bytes (n : nat) (x : Z) : list Z :=
  match n with
  | O => []
  | S k => x mod 2 ^ 8 :: le_bytes k (x / 2 ^ 8)
  end.

(** The bytes of a scalar object of [n] bytes in memory. *)
Definition obj_bytes (o : byte_order) (n : nat) (x : Z) : list Z :=
  match o with
  | LittleEndian => le_bytes n x
  | BigEndian => rev (le_bytes n x)
  end.

(** The value a receiver reads from little-endian bytes. *)
Fixpoint le_value (l : list Z) : Z :=
  match l with
  | [] => 0
  | b :: t => b + 2 ^ 8 * le_value t
  end.

(** Bytes [i .. i+n-1] of a frame. *)
Definition slice (i n : nat) (l : list Z) : list Z := firstn n (skipn i l).

(** XOR of a list of bytes. *)
Definition xor_all (l : list Z) : Z := fold_right Z.lxor 0 l.

Definition checksum_xor (p : list Z) (n : Z) : Z :=
  fold_left (fun c i => u8 (Z.lxor c (rd p i))) (Zseq n) 0.

(** ** The firmware, on a target [tgt] with a sensor [dev] *)

Section Firmware.

Variable tgt : Target.
Variable dev : Sensor.

Local Open Scope m_scope.

(** *** Register accesses of I2C1 *)

Definition i2c_do (a : i2c_access) : M unit :=
  modify (fun m => set_i2c_log (a :: i2c_log m) m).

Definition read_SR1 : M Z :=
  fun m => (I2C_SR1 dev (i2c_log m), set_i2c_log (SR1_read :: i2c_log m) m).

Definition read_DR : M Z :=
  fun m => (I2C_DR dev (i2c_log m), set_i2c_log (DR_read :: i2c_log m) m).

(** [while(!(I2C1->SR1 & flag) && timeout--);] *)
Fixpoint wait_flag (flag : Z) (timeout : nat) : M unit :=
  sr <- read_SR1 ;;
  if negb (Z.land sr flag =? 0) then ret tt
  else match timeout with
       | O => ret tt
       | S t => wait_flag flag t
       end.

(** *** MPU9250 I2C *)

Definition MPU_ADDR : Z := Z.shiftl 0x68 1.
Definition REG_PWR_MGMT_1 : Z := 0x6B.
Definition REG_SMPLRT_DIV : Z := 0x19.
Definition REG_CONFIG : Z := 0x1A.
Definition REG_GYRO_CONFIG : Z := 0x1B.
Definition REG_ACCEL_CONFIG : Z := 0x1C.
Definition REG_ACCEL_CONFIG2 : Z := 0x1D.
Definition REG_ACCEL_XOUT_H : Z := 0x3B.

Definition I2C_TIMEOUT : Z := 10000.

Definition i2c_start : M unit :=
  i2c_do (CR1_set (I2C_CR1_START tgt)) ;;
  wait_flag (I2C_SR1_SB tgt) (Z.to_nat I2C_TIMEOUT).

Definition i2c_stop : M unit :=
  i2c_do (CR1_set (I2C_CR1_STOP tgt)).

Definition i2c_write_addr (addr : Z) : M unit :=
  i2c_do (DR_write addr) ;;
  wait_flag (I2C_SR1_ADDR tgt) (Z.to_nat I2C_TIMEOUT) ;;
  i2c_do SR1_read ;; i2c_do SR2_read.

Definition i2c_write_data (data : Z) : M unit :=
  i2c_do (DR_write data) ;;
  wait_flag (I2C_SR1_TXE tgt) (Z.to_nat I2C_TIMEOUT).

Definition i2c_read_ack : M Z :=
  i2c_do (CR1_set (I2C_CR1_ACK tgt)) ;;
  wait_flag (I2C_SR1_RXNE tgt) (Z.to_nat I2C_TIMEOUT) ;;
  v <- read_DR ;;
  ret (u8 v).

Definition i2c_read_nack : M Z :=
  i2c_do (CR1_clear (I2C_CR1_ACK tgt)) ;;
  wait_flag (I2C_SR1_RXNE tgt) (Z.to_nat I2C_TIMEOUT) ;;
  v <- read_DR ;;
  ret (u8 v).

Definition i2c_write (reg val : Z) : M unit :=
  i2c_start ;;
  i2c_write_addr MPU_ADDR ;;
  i2c_write_data reg ;;
  i2c_write_data val ;;
  i2c_stop.

(** Returns the byte count and the filled buffer. *)
Definition i2c_read_burst (reg n : Z) (dst : list Z) : M (Z * list Z) :=
  i2c_start ;;
  i2c_write_addr MPU_ADDR ;;
  i2c_write_data reg ;;
  i2c_start ;;
  i2c_write_addr (Z.lor MPU_ADDR 1) ;;
  dst' <- for_each (Zseq n)
            (fun i dst =>
               b <- (if i =? n - 1 then i2c_read_nack else i2c_read_ack) ;;
               ret (wr dst i b))
            dst ;;
  i2c_stop ;;
  ret (n, dst').

(** The busy loop changes nothing the program can see. *)
Definition delay_ms (ms : Z) : M unit := ret tt.

Definition mpu_begin : M Z :=
  i2c_write REG_PWR_MGMT_1 0x01 ;;
  delay_ms 10 ;;
  i2c_write REG_SMPLRT_DIV 9 ;;
  i2c_write REG_CONFIG 0x03 ;;
  i2c_write REG_GYRO_CONFIG 0x18 ;;
  i2c_write REG_ACCEL_CONFIG 0x08 ;;
  i2c_write REG_ACCEL_CONFIG2 0x03 ;;
  delay_ms 10 ;;
  ret 1.

(** The type of a burst-read primitive, [i2c_read_burst] being the one
    the firmware links. *)
Definition burst_read : Type := Z -> Z -> list Z -> M (Z * list Z).

(** [(int16_t)((hi << 8) | lo)] *)
Definition raw16 (hi lo : Z) : Z := i16 (Z.lor (Z.shiftl hi 8) lo).

Definition ACCEL_S : float := f_div lit_9_80665 lit_8192.
Definition GYRO_S : float := lit_0_001064225.

(** [mpu_read] over a burst-read primitive.  [s] holds the values of the
    six pointees on entry; they are left as they are when the read
    fails. *)
Definition mpu_read_with (burst : burst_read) (s : Sample) : M (Z * Sample) :=
  '(r, buf) <- burst REG_ACCEL_XOUT_H 14 (repeat 0 14%nat) ;;
  if negb (u8 r =? 14) then ret (0, s)
  else
    let ax_raw := raw16 (rd buf 0) (rd buf 1) in
    let ay_raw := raw16 (rd buf 2) (rd buf 3) in
    let az_raw := raw16 (rd buf 4) (rd buf 5) in
    let gx_raw := raw16 (rd buf 8) (rd buf 9) in
    let gy_raw := raw16 (rd buf 10) (rd buf 11) in
    let gz_raw := raw16 (rd buf 12) (rd buf 13) in
    bias <- get gyro_bias_z ;;
    ret (1, mkSample
              (f_mul (f_of_int ax_raw) ACCEL_S)
              (f_mul (f_of_int ay_raw) ACCEL_S)
              (f_mul (f_of_int az_raw) ACCEL_S)
              (f_mul (f_of_int gx_raw) GYRO_S)
              (f_mul (f_of_int gy_raw) GYRO_S)
              (f_sub (f_mul (f_of_int gz_raw) GYRO_S) bias)).

Definition mpu_read : Sample -> M (Z * Sample) := mpu_read_with i2c_read_burst.

(** *** Framing *)

(** The object representation of a [Payload]: the fields in declaration
    order without padding (the struct is packed), each in the byte order
    of the target. *)
Definition Payload_bytes (p : Payload.t) : list Z :=
  let o := endianness tgt in
  obj_bytes o 4 (u32 (Payload.t_ms p)) ++
  obj_bytes o 4 (u32 (Payload.ticksFL p)) ++
  obj_bytes o 4 (u32 (Payload.ticksFR p)) ++
  obj_bytes o 4 (u32 (Payload.ticksBL p)) ++
  obj_bytes o 4 (u32 (Payload.ticksBR p)) ++
  obj_bytes o 4 (bits_of_float (Payload.ax p)) ++
  obj_bytes o 4 (bits_of_float (Payload.ay p)) ++
  obj_bytes o 4 (bits_of_float (Payload.az p)) ++
  obj_bytes o 4 (bits_of_float (Payload.gx p)) ++
  obj_bytes o 4 (bits_of_float (Payload.gy p)) ++
  obj_bytes o 4 (bits_of_float (Payload.gz p)) ++
  obj_bytes o 2 (u16 (Payload.flags p)).

(** [USART3->DR = b], once the transmitter has raised TXE.  Polling the
    status register changes nothing; [uart_tx] records the bytes
    written. *)
Definition uart_send_byte (b : Z) : M unit :=
  modify (fun m => set_uart_tx (uart_tx m ++ [b]) m).

Definition send_payload (p : Payload.t) : M unit :=
  let H0 := 0xAA in
  let H1 := 0x55 in
  uart_send_byte H0 ;;
  uart_send_byte H1 ;;
  let data := Payload_bytes p in
  for_each (Zseq sizeof_Payload) (fun i _ => uart_send_byte (rd data i)) tt ;;
  let cs := checksum_xor data sizeof_Payload in
  uart_send_byte cs.

(** *** Interrupts *)

(** What happens asynchronously to the main program: the environment
    drives the encoder pins, an EXTI handler calls the handler of a
    wheel, the SysTick fires. *)
Inductive event : Type :=
| PinChange (a b : Z)
| IRQ_FL | IRQ_FR | IRQ_BL | IRQ_BR
| Tick.

Definition handle (e : event) (m : Machine) : Machine :=
  match e with
  | PinChange a b => set_pins a b m
  | IRQ_FL => isrFL m
  | IRQ_FR => isrFR m
  | IRQ_BL => isrBL m
  | IRQ_BR => isrBR m
  | Tick => SysTick_Handler m
  end.

Definition run_events (evs : list event) : M unit :=
  modify (fun m => fold_left (fun m e => handle e m) evs m).

(** The EXTI lines are unmasked by [exti_init] only. *)
Definition is_exti (e : event) : bool :=
  match e with
  | IRQ_FL | IRQ_FR | IRQ_BL | IRQ_BR => true
  | _ => false
  end.

(** *** Main *)

(** The calibration loop of [main]; the locals [ax .. gz] of its body are
    read only after a successful [mpu_read] has written them. *)
Definition calibrate_with (burst : burst_read) : M unit :=
  sum <- for_each (Zseq 400)
           (fun _ sum =>
              '(ok, s) <- mpu_read_with burst Sample_zero ;;
              bias <- get gyro_bias_z ;;
              let sum := if u8 ok =? 0 then sum
                         else f_add sum (f_add (gz s) bias) in
              delay_ms 2 ;;
              ret sum)
           f_zero ;;
  modify (set_gyro_bias_z (f_div sum (f_of_int 400))).

Definition build_payload (now tFL tFR tBL tBR : Z) (s : Sample) (ok : Z)
  : Payload.t :=
  Payload.mk now tFL tFR tBL tBR (ax s) (ay s) (az s) (gx s) (gy s) (gz s)
    (if u8 ok =? 0 then 0x0001 else 0).

(** One pass of the [while(1)] body from the snapshot on: the payload it
    builds (interrupts being disabled while the four counters are
    copied), and its transmission. *)
Definition payload_with (burst : burst_read) (now : Z) : M Payload.t :=
  '(tFL, tFR, tBL, tBR) <- get (fun m => (encFL m, encFR m, encBL m, encBR m)) ;;
  '(ok, s) <- mpu_read_with burst Sample_zero ;;
  ret (build_payload now tFL tFR tBL tBR s ok).

Definition acquire_with (burst : burst_read) (now : Z) : M unit :=
  p <- payload_with burst now ;;
  send_payload p.

(** The [while(1)] loop, one element of [sched] per pass: the events
    served before the pass reads the clock, and those served after that
    read (before [__disable_irq()] when the pass goes on).  Events served
    later in a pass touch nothing the rest of the pass reads and count as
    served before the next one. *)
Fixpoint main_loop (burst : burst_read)
         (sched : list (list event * list event)) (last : Z) : M Z :=
  match sched with
  | [] => ret last
  | (pre, mid) :: rest =>
      run_events pre ;;
      now <- get millis ;;
      if u32 (now - last) <? 10 then
        run_events mid ;;
        main_loop burst rest last
      else
        run_events mid ;;
        acquire_with burst now ;;
        main_loop burst rest now
  end.

(** Every event of a schedule, in the order served. *)
Definition events_of (sched : list (list event * list event)) : list event :=
  concat (map (fun pm => fst pm ++ snd pm) sched).

(** [while(1);] with the events that can still be served. *)
Definition hang (sched : list (list event * list event)) : M unit :=
  run_events (filter (fun e => negb (is_exti e)) (events_of sched)).

(** [prevFL = rdFL(); prevFR = rdFR(); prevBL = rdBL(); prevBR = rdBR();] *)
Definition capture_phases : M unit :=
  modify (fun m => set_prevFL (rdFL m) m) ;;
  modify (fun m => set_prevFR (rdFR m) m) ;;
  modify (fun m => set_prevBL (rdBL m) m) ;;
  modify (fun m => set_prevBR (rdBR m) m).

(** [main] from the call of the sensor initialisation on, over an
    initialisation routine and a burst-read primitive.  What precedes
    ([clock_init] .. [i2c_init], [delay_ms(100)]) and [exti_init] only
    configure peripherals. *)
Definition main_with (begin : M Z) (burst : burst_read)
           (sched : list (list event * list event)) : M unit :=
  ok <- begin ;;
  if u8 ok =? 0 then hang sched
  else
    calibrate_with burst ;;
    capture_phases ;;
    main_loop burst sched 0 ;;
    ret tt.

Definition calibrate : M unit := calibrate_with i2c_read_burst.
Definition acquire : Z -> M unit := acquire_with i2c_read_burst.
Definition main : list (list event * list event) -> M unit :=
  main_with mpu_begin i2c_read_burst.

End Firmware.

(** ** Vocabulary of the properties *)

(** *** Quadrature *)

Definition is_phase (p : Z) : Prop := 0 <= p <= 3.

(** The delta the table gives for a transition. *)
Definition delta (prev new : Z) : Z := rd qLUT (Z.lor (Z.shiftl prev 2) new).

(** One step of a forward turn, 00 -> 10 -> 11 -> 01 -> 00 on (A, B), and
    one step of a reverse turn. *)
Definition fwd (p : Z) : Z :=
  match p with
  | 0 => 2 | 2 => 3 | 3 => 1 | _ => 0
  end.
Definition bwd (p : Z) : Z :=
  match p with
  | 0 => 1 | 1 => 3 | 3 => 2 | _ => 0
  end.

(** Number of channels on which two phases differ. *)
Definition channels_changed (p q : Z) : Z :=
  let x := Z.lxor p q in Z.b2z (Z.testbit x 0) + Z.b2z (Z.testbit x 1).

(** [n] transitions of a decoder, the next phase being [step] of the
    last. *)
Fixpoint spin (step : Z -> Z) (n : nat) (st : Z * Z) : Z * Z :=
  match n with
  | O => st
  | S k => spin step k (decode (fst st) (snd st) (step (snd st)))
  end.

(** The sixteen transitions [(prev, new)]. *)
Definition transitions : list (Z * Z) :=
  list_prod [0; 1; 2; 3] [0; 1; 2; 3].

(** How many transitions the table maps to [d]. *)
Definition count_delta (d : Z) : nat :=
  length (filter (fun t => delta (fst t) (snd t) =? d) transitions).

Inductive wheel : Type := FL | FR | BL | BR.

Definition enc_of (w : wheel) : Machine -> Z :=
  match w with FL => encFL | FR => encFR | BL => encBL | BR => encBR end.
Definition prev_of (w : wheel) : Machine -> Z :=
  match w with FL => prevFL | FR => prevFR | BL => prevBL | BR => prevBR end.
Definition rd_of (w : wheel) : Machine -> Z :=
  match w with FL => rdFL | FR => rdFR | BL => rdBL | BR => rdBR end.
Definition isr_of (w : wheel) : Machine -> Machine :=
  match w with FL => isrFL | FR => isrFR | BL => isrBL | BR => isrBR end.
Definition irq_of (w : wheel) : event :=
  match w with FL => IRQ_FL | FR => IRQ_FR | BL => IRQ_BL | BR => IRQ_BR end.

Definition wheel_eqb (v w : wheel) : bool :=
  match v, w with
  | FL, FL | FR, FR | BL, BL | BR, BR => true
  | _, _ => false
  end.

(** Input registers of ports A and B showing phase [ph] on the pins of
    wheel [w] (all other inputs low). *)
Definition pins_of (w : wheel) (ph : Z) : Z * Z :=
  let a := ph / 2 in
  let b := ph mod 2 in
  match w with
  | FL => (Z.lor (Z.shiftl a ENC_FLA_PIN) (Z.shiftl b ENC_FLB_PIN), 0)
  | BL => (Z.lor (Z.shiftl a ENC_BLA_PIN) (Z.shiftl b ENC_BLB_PIN), 0)
  | FR => (Z.shiftl a ENC_FRA_PIN, Z.shiftl b ENC_FRB_PIN)
  | BR => (0, Z.lor (Z.shiftl a ENC_BRA_PIN) (Z.shiftl b ENC_BRB_PIN))
  end.

(** An edge on wheel [w]: its pins move to [ph] and its handler runs. *)
Definition edge (w : wheel) (ph : Z) : list event :=
  [PinChange (fst (pins_of w ph)) (snd (pins_of w ph)); irq_of w].

(** [n] successive edges of wheel [w] from phase [ph]. *)
Fixpoint turn (w : wheel) (step : Z -> Z) (n : nat) (ph : Z) : list event :=
  match n with
  | O => []
  | S k => edge w (step ph) ++ turn w step k (step ph)
  end.

(** The phase [n] steps after [ph]. *)
Fixpoint phase_after (step : Z -> Z) (n : nat) (ph : Z) : Z :=
  match n with
  | O => ph
  | S k => phase_after step k (step ph)
  end.

Definition serve (evs : list event) (m : Machine) : Machine :=
  snd (run_events evs m).

(** *** Sensor conversion *)

(** The scale factors as rational numbers: 9.80665 / 8192 and
    0.001064225. *)
Definition accel_scale : Q := 980665 # (100000 * 8192).
Definition gyro_scale : Q := 1064225 # 1000000000.

(** [f] is a finite float within a relative error of [2^-23] of [x]: the
    rounding of a decimal literal and of one multiplication. *)
Definition close_b (f : float) (x : Q) : bool :=
  is_finite f && Qle_bool (Qabs (F2Q f - x)) ((1 # 2 ^ 23) * Qabs x).
Definition close_to (f : float) (x : Q) : Prop :=
  is_finite f = true /\ (Qabs (F2Q f - x) <= (1 # 2 ^ 23) * Qabs x)%Q.

Definition accel_ok (raw : Z) : bool :=
  close_b (f_mul (f_of_int raw) ACCEL_S) (inject_Z raw * accel_scale).
Definition gyro_ok (raw : Z) : bool :=
  close_b (f_mul (f_of_int raw) GYRO_S) (inject_Z raw * gyro_scale).

(** [f] holds on [lo], [lo+1], ..., [lo+n-1]. *)
Fixpoint all_from (n : nat) (lo : Z) (f : Z -> bool) : bool :=
  match n with
  | O => true
  | S k => f lo && all_from k (lo + 1) f
  end.

(** [f] holds on every [int16_t]. *)
Definition all_i16 (f : Z -> bool) : bool :=
  all_from (Z.to_nat (2 ^ 16)) (- 2 ^ 15) f.

(** *** Calibration *)

(** The gyro value of a raw reading, before the bias is taken off. *)
Definition gyro_sample (V : Z) : float := f_mul (f_of_int V) GYRO_S.

(** What one pass of the calibration loop adds to its sum when the raw
    reading is [V] and the bias variable holds [b0]: [gz + gyro_bias_z]
    with [gz = V * GYRO_S - gyro_bias_z]. *)
Definition calib_term (b0 : float) (V : Z) : float :=
  f_add (f_sub (gyro_sample V) b0) b0.

(** [s + x + x + ... + x] ([n] times), each addition rounded. *)
Fixpoint sum_const (x : float) (n : nat) (s : float) : float :=
  match n with
  | O => s
  | S k => sum_const x k (f_add s x)
  end.

(** The single-precision mean of 400 readings [V]. *)
Definition bias_of (V : Z) : float :=
  f_div (sum_const (calib_term f_zero V) 400 f_zero) (f_of_int 400).

(** The values the calibration loop adds up over [n] passes from machine
    [m], in order. *)
Fixpoint calib_samples (tgt : Target) (dev : Sensor) (n : nat) (m : Machine)
  : list float :=
  match n with
  | O => []
  | S k =>
      let '(_, s, m1) := mpu_read tgt dev Sample_zero m in
      f_add (gz s) (gyro_bias_z m1) :: calib_samples tgt dev k m1
  end.

(** The sensor delivers the raw gyro-Z value [V] at every burst read. *)
Definition steady (tgt : Target) (dev : Sensor) (V : Z) : Prop :=
  forall m,
    let buf := snd (fst (i2c_read_burst tgt dev REG_ACCEL_XOUT_H 14
                           (repeat 0 14%nat) m)) in
    raw16 (rd buf 12) (rd buf 13) = V.

(** A sensor that raises every status flag at once and reads [b] in every
    data byte. *)
Definition steady_sensor (b : Z) : Sensor :=
  mkSensor (fun _ => 0xFFFF) (fun _ => b).

(** A bus on which no flag ever rises. *)
Definition dead_bus : Sensor := mkSensor (fun _ => 0) (fun _ => 0).

(** *** Frames *)

Definition is_byte (b : Z) : Prop := 0 <= b < 2 ^ 8.

(** A binary32 value in the canonical form of the format. *)
Definition f_valid (f : float) : Prop := valid_binary f_prec f_emax f = true.

(** A big-endian target with the register masks of the STM32F103. *)
Definition big_endian_target : Target :=
  mkTarget BigEndian 0x0100 0x0200 0x0400 0x0001 0x0002 0x0080 0x0040.

(** A payload with [t_ms = 1] and everything else zero. *)
Definition payload_t1 : Payload.t :=
  Payload.mk 1 0 0 0 0 f_zero f_zero f_zero f_zero f_zero f_zero 0.

(** The bytes [send_payload] puts on the wire for [p]. *)
Definition frame (tgt : Target) (p : Payload.t) : list Z :=
  uart_tx (snd (send_payload tgt p (reset 0 0))).

(** The payloads of the frames a run of [main_loop] sends, in order. *)
Fixpoint payloads_of (tgt : Target) (dev : Sensor)
         (sched : list (list event * list event)) (last : Z) (m : Machine)
  : list Payload.t :=
  match sched with
  | [] => []
  | (pre, mid) :: rest =>
      let m1 := serve pre m in
      let now := millis m1 in
      let m2 := serve mid m1 in
      if u32 (now - last) <? 10 then payloads_of tgt dev rest last m2
      else
        let '(p, m3) := payload_with (i2c_read_burst tgt dev) now m2 in
        p :: payloads_of tgt dev rest now (snd (send_payload tgt p m3))
  end.

(** *** What a piece of code may touch *)

(** The machine with the records of bus and serial traffic erased: the
    globals and the input pins. *)
Definition core (m : Machine) : Machine := set_uart_tx [] (set_i2c_log [] m).

(** [c] changes nothing but the I2C access log. *)
Definition i2c_only {A : Type} (c : M A) : Prop :=
  forall m, snd (c m) = set_i2c_log (i2c_log (snd (c m))) m.

(** [c] changes nothing but the bytes sent on the UART, and only appends. *)
Definition uart_only {A : Type} (c : M A) : Prop :=
  forall m, exists out, snd (c m) = set_uart_tx (uart_tx m ++ out) m.

(** [c] changes neither globals nor pins. *)
Definition keeps_core {A : Type} (c : M A) : Prop :=
  forall m, core (snd (c m)) = core m.

(** *** Bus traffic *)

(** The bytes written to the I2C data register, oldest first. *)
Fixpoint dr_writes (log : list i2c_access) : list Z :=
  match log with
  | [] => []
  | DR_write v :: t => dr_writes t ++ [v]
  | _ :: t => dr_writes t
  end.

(** The number of reads of the I2C data register. *)
Fixpoint dr_reads (log : list i2c_access) : nat :=
  match log with
  | [] => O
  | DR_read :: t => S (dr_reads t)
  | _ :: t => dr_reads t
  end.

(** [c] only adds accesses of I2C1 to the log, between [lo] and [hi] of
    them. *)
Definition adds_accesses {A : Type} (lo hi : Z) (c : M A) : Prop :=
  forall m, exists l,
    i2c_log (snd (c m)) = l ++ i2c_log m /\ lo <= Z.of_nat (length l) <= hi.

(** [c] writes the bytes [ws], in this order, to the data register. *)
Definition writes_bytes {A : Type} (ws : list Z) (c : M A) : Prop :=
  forall m, dr_writes (i2c_log (snd (c m))) = dr_writes (i2c_log m) ++ ws.

(** [c] reads the data register [n] times. *)
Definition reads_bytes {A : Type} (n : nat) (c : M A) : Prop :=
  forall m, dr_reads (i2c_log (snd (c m))) = (dr_reads (i2c_log m) + n)%nat.

(** The 18 bytes of the sensor configuration: six times the device
    address, a register and its value. *)
Definition mpu_config_bytes : list Z :=
  [0xD0; 0x6B; 0x01;  0xD0; 0x19; 9;  0xD0; 0x1A; 0x03;
   0xD0; 0x1B; 0x18;  0xD0; 0x1C; 0x08;  0xD0; 0x1D; 0x03].

(** *** Walks of a decoder *)

(** A sequence of single steps, [true] forward and [false] reverse. *)
Fixpoint walk (dirs : list bool) (st : Z * Z) : Z * Z :=
  match dirs with
  | [] => st
  | d :: t => walk t (decode (fst st) (snd st) ((if d then fwd else bwd) (snd st)))
  end.

(** Forward steps minus reverse steps. *)
Fixpoint net (dirs : list bool) : Z :=
  match dirs with
  | [] => 0
  | d :: t => (if d then 1 else -1) + net t
  end.

(** *** Well-formed machines and payloads *)

(** The globals hold values of their C types, and the stored phases are
    phases. *)
Definition wf_machine (m : Machine) : Prop :=
  (forall w, is_i32 (enc_of w m) /\ is_phase (prev_of w m)) /\
  is_u32 (systick_millis m).

Definition wf_payload (p : Payload.t) : Prop :=
  is_u32 (Payload.t_ms p) /\
  is_i32 (Payload.ticksFL p) /\ is_i32 (Payload.ticksFR p) /\
  is_i32 (Payload.ticksBL p) /\ is_i32 (Payload.ticksBR p) /\
  (forall x, In x [Payload.ax p; Payload.ay p; Payload.az p;
                   Payload.gx p; Payload.gy p; Payload.gz p] ->
             f_valid x /\ x <> S754_nan) /\
  0 <= Payload.flags p < 2 ^ 16.

(** Successive time stamps are at least 10 ms apart, modulo 2^32,
    starting from [last]. *)
Fixpoint spaced (last : Z) (ps : list Payload.t) : Prop :=
  match ps with
  | [] => True
  | p :: rest => 10 <= u32 (Payload.t_ms p - last) /\ spaced (Payload.t_ms p) rest
  end.

(** The machine [main] enters its loop with. *)
Definition startup (tgt : Target) (dev : Sensor) (m : Machine) : Machine :=
  snd (capture_phases (snd (calibrate tgt dev (snd (mpu_begin tgt dev m))))).

(** * Properties *)

(** ** Integers *)

Lemma i32_id (x : Z) : is_i32 x -> i32 x = x.
Proof.
  unfold is_i32, i32, signed. intros H.
  rewrite Z.mod_small; lia.
Qed.

Lemma i32_range (x : Z) : is_i32 (i32 x).
Proof.
  unfold is_i32, i32, signed.
  pose proof (Z.mod_pos_bound (x + 2 ^ (32 - 1)) (2 ^ 32) ltac:(lia)). lia.
Qed.

Lemma i32_add_l (a b : Z) : i32 (i32 a + b) = i32 (a + b).
Proof.
  unfold i32, signed. f_equal.
  replace ((a + 2 ^ (32 - 1)) mod 2 ^ 32 - 2 ^ (32 - 1) + b + 2 ^ (32 - 1))
    with ((a + 2 ^ (32 - 1)) mod 2 ^ 32 + b) by ring.
  rewrite Z.add_mod_idemp_l by lia. f_equal. ring.
Qed.

(** ** Quadrature decoder *)

Ltac each_phase p :=
  let H := fresh in
  intros H; unfold is_phase in H;
  assert (p = 0 \/ p = 1 \/ p = 2 \/ p = 3) as [-> | [-> | [-> | ->]]] by lia.

Lemma fwd_phase (p : Z) : is_phase p -> is_phase (fwd p).
Proof. each_phase p; unfold is_phase; simpl; lia. Qed.

Lemma bwd_phase (p : Z) : is_phase p -> is_phase (bwd p).
Proof. each_phase p; unfold is_phase; simpl; lia. Qed.

Lemma bwd_fwd (p : Z) : is_phase p -> bwd (fwd p) = p.
Proof. each_phase p; reflexivity. Qed.

Lemma phase_after_phase (step : Z -> Z) (n : nat) :
  (forall p, is_phase p -> is_phase (step p)) ->
  forall p, is_phase p -> is_phase (phase_after step n p).
Proof. intros Hs. induction n; simpl; auto. Qed.

Lemma phase_after_bwd_fwd (n : nat) : forall p,
  is_phase p -> phase_after bwd n (phase_after fwd n p) = p.
Proof.
  induction n as [|n IH]; intros p Hp; [reflexivity|].
  assert (E : forall k q, phase_after bwd (S k) q = bwd (phase_after bwd k q)).
  { clear. induction k; intros q; [reflexivity|]. exact (IHk (bwd q)). }
  rewrite E. cbn [phase_after]. rewrite IH by now apply fwd_phase.
  now apply bwd_fwd.
Qed.

Lemma delta_fwd (p : Z) : is_phase p -> delta p (fwd p) = 1.
Proof. each_phase p; reflexivity. Qed.

Lemma delta_bwd (p : Z) : is_phase p -> delta p (bwd p) = -1.
Proof. each_phase p; reflexivity. Qed.

Lemma decode_delta (enc prev ns : Z) :
  decode enc prev ns = (i32 (enc + delta prev ns), ns).
Proof. reflexivity. Qed.

(** A run of [n] steps in one direction moves the count by [n] times the
    delta of that direction, modulo 2^32. *)
Lemma spin_constant (step : Z -> Z) (d : Z) :
  (forall p, is_phase p -> is_phase (step p)) ->
  (forall p, is_phase p -> delta p (step p) = d) ->
  forall n pos ph,
    is_i32 pos -> is_phase ph ->
    spin step n (pos, ph) = (i32 (pos + d * Z.of_nat n), phase_after step n ph).
Proof.
  intros Hs Hd. induction n as [|n IH]; intros pos ph Hpos Hph.
  - simpl. now rewrite Z.mul_0_r, Z.add_0_r, i32_id.
  - cbn [spin fst snd phase_after]. rewrite decode_delta, Hd by assumption.
    rewrite IH by auto using i32_range. rewrite i32_add_l.
    do 2 f_equal. lia.
Qed.

(** ** State passing *)

Lemma bind_eq {A B : Type} (c : M A) (k : A -> M B) (m : Machine) :
  bind c k m = k (fst (c m)) (snd (c m)).
Proof. unfold bind. now destruct (c m). Qed.

Lemma serve_app (l1 l2 : list event) (m : Machine) :
  serve (l1 ++ l2) m = serve l2 (serve l1 m).
Proof. unfold serve, run_events, modify. simpl. apply fold_left_app. Qed.

Lemma serve_cons (e : event) (l : list event) (m : Machine) :
  serve (e :: l) m = serve l (handle e m).
Proof. reflexivity. Qed.

(** ** The handlers against the decoder *)

Lemma isr_decode (w : wheel) (m : Machine) :
  (enc_of w (isr_of w m), prev_of w (isr_of w m)) =
  decode (enc_of w m) (prev_of w m) (rd_of w m).
Proof. destruct w; reflexivity. Qed.

Lemma rd_of_phase (w : wheel) (m : Machine) : is_phase (rd_of w m).
Proof.
  unfold is_phase.
  destruct w; cbn [rd_of]; unfold rdFL, rdFR, rdBL, rdBR, phase_of;
    repeat match goal with |- context [READ_PIN ?x ?p] => destruct (READ_PIN x p) end;
    vm_compute; intuition discriminate.
Qed.

Lemma rd_of_pins (w : wheel) (ph : Z) (m : Machine) :
  is_phase ph ->
  rd_of w (set_pins (fst (pins_of w ph)) (snd (pins_of w ph)) m) = ph.
Proof. each_phase ph; destruct w; reflexivity. Qed.

Lemma edge_decode (w : wheel) (ph : Z) (m : Machine) :
  is_phase ph ->
  (enc_of w (serve (edge w ph) m), prev_of w (serve (edge w ph) m)) =
  decode (enc_of w m) (prev_of w m) ph.
Proof.
  intros Hph. unfold edge. rewrite !serve_cons. cbn [serve run_events modify snd fold_left].
  replace (handle (irq_of w)) with (isr_of w) by now destruct w.
  cbn [handle]. rewrite isr_decode, rd_of_pins by assumption.
  now destruct w.
Qed.

Lemma turn_spin (w : wheel) (step : Z -> Z) :
  (forall p, is_phase p -> is_phase (step p)) ->
  forall n m ph,
    prev_of w m = ph -> is_phase ph ->
    (enc_of w (serve (turn w step n ph) m),
     prev_of w (serve (turn w step n ph) m)) =
    spin step n (enc_of w m, ph).
Proof.
  intros Hs. induction n as [|n IH]; intros m ph Hm Hph.
  - cbn [turn spin]. change (serve [] m) with m. now rewrite Hm.
  - cbn [turn spin fst snd]. rewrite serve_app.
    pose proof (edge_decode w (step ph) m (Hs _ Hph)) as E.
    rewrite Hm, decode_delta in E. injection E as E1 E2.
    rewrite decode_delta, <- E1.
    apply IH; [exact E2 | now apply Hs].
Qed.

(** C3. For 2-bit phases [prev] and [new], the table entry at
    [(prev << 2) | new] is +1 on the four steps of the forward cycle
    00 -> 10 -> 11 -> 01 -> 00 and -1 on the four steps of the reverse
    cycle; these eight are exactly the transitions that change one channel.
    It is 0 when the phase is unchanged and 0 on the four transitions that
    change both channels.  Each handler adds the entry to its wheel's count
    (as [int32_t]) and stores the new phase as the last one. *)
Theorem C3_transition_table :
  (forall prev new, is_phase prev -> is_phase new ->
     (new = fwd prev -> delta prev new = 1) /\
     (new = bwd prev -> delta prev new = -1) /\
     (channels_changed prev new = 1 <-> new = fwd prev \/ new = bwd prev) /\
     (prev = new -> delta prev new = 0) /\
     (channels_changed prev new = 2 -> delta prev new = 0) /\
     0 <= Z.lor (Z.shiftl prev 2) new < 16) /\
  (forall p, is_phase p ->
     fwd (fwd (fwd (fwd p))) = p /\ fwd p <> p /\ fwd (fwd p) <> p /\
     fwd (fwd (fwd p)) <> p /\ bwd (fwd p) = p /\ fwd (bwd p) = p) /\
  (count_delta 1 = 4%nat /\ count_delta (-1) = 4%nat /\ count_delta 0 = 8%nat) /\
  (forall w m,
     enc_of w (isr_of w m) = i32 (enc_of w m + delta (prev_of w m) (rd_of w m)) /\
     (is_i32 (enc_of w m + delta (prev_of w m) (rd_of w m)) ->
      enc_of w (isr_of w m) = enc_of w m + delta (prev_of w m) (rd_of w m)) /\
     prev_of w (isr_of w m) = rd_of w m /\
     is_phase (rd_of w m)).
Proof.
  split; [|split; [|split]].
  - intros prev new Hp. revert Hp. each_phase prev; each_phase new;
      vm_compute; intuition (try discriminate; try congruence).
  - intros p. each_phase p; vm_compute; intuition discriminate.
  - now vm_compute.
  - intros w m. pose proof (isr_decode w m) as E. rewrite decode_delta in E.
    injection E as E1 E2. repeat split.
    + exact E1.
    + intros H. rewrite E1. now apply i32_id.
    + exact E2.
    + apply rd_of_phase.
    + apply rd_of_phase.
Qed.

Lemma C3_transition_table_witness :
  delta 0 2 = 1 /\ delta 2 0 = -1 /\ delta 0 3 = 0.
Proof.
  destruct C3_transition_table as [H _].
  assert (P0 : is_phase 0) by (unfold is_phase; lia).
  assert (P2 : is_phase 2) by (unfold is_phase; lia).
  assert (P3 : is_phase 3) by (unfold is_phase; lia).
  split; [|split].
  - destruct (H 0 2 P0 P2) as (H1 & _). apply H1. reflexivity.
  - destruct (H 2 0 P2 P0) as (_ & H1 & _). apply H1. reflexivity.
  - destruct (H 0 3 P0 P3) as (_ & _ & _ & _ & H1 & _). apply H1. reflexivity.
Defined.

(** C4. From any count and any last phase, [N] single forward steps
    followed by [N] single reverse steps bring a decoder back to its
    starting count (and phase); so do the corresponding [2 N] edge
    interrupts of any wheel. *)
Theorem C4_forward_then_reverse :
  forall (N : nat) (pos ph : Z),
    is_i32 pos -> is_phase ph ->
    spin bwd N (spin fwd N (pos, ph)) = (pos, ph) /\
    (forall w m,
       enc_of w m = pos -> prev_of w m = ph ->
       enc_of w (serve (turn w fwd N ph ++ turn w bwd N (phase_after fwd N ph)) m)
       = pos).
Proof.
  intros N pos ph Hpos Hph.
  assert (S1 : spin fwd N (pos, ph)
               = (i32 (pos + Z.of_nat N), phase_after fwd N ph)).
  { rewrite (spin_constant fwd 1); auto using fwd_phase, delta_fwd.
    now rewrite Z.mul_1_l. }
  assert (S2 : spin bwd N (spin fwd N (pos, ph)) = (pos, ph)).
  { rewrite S1, (spin_constant bwd (-1));
      auto using bwd_phase, delta_bwd, i32_range, phase_after_phase, fwd_phase.
    rewrite i32_add_l, phase_after_bwd_fwd by assumption.
    f_equal. rewrite <- (i32_id pos) at 2 by assumption. f_equal. lia. }
  split; [exact S2|].
  intros w m He Hp. rewrite serve_app.
  pose proof (turn_spin w fwd fwd_phase N m ph Hp Hph) as T1.
  rewrite He, S1 in T1. injection T1 as T1e T1p.
  pose proof (turn_spin w bwd bwd_phase N _ _ T1p
                (phase_after_phase fwd N fwd_phase _ Hph)) as T2.
  rewrite T1e, <- S1, S2 in T2. now injection T2.
Qed.

Lemma C4_forward_then_reverse_witness :
  spin bwd 5 (spin fwd 5 (2147483645, 1)) = (2147483645, 1).
Proof.
  apply (C4_forward_then_reverse 5 2147483645 1).
  - unfold is_i32. lia.
  - unfold is_phase. lia.
Defined.

(** ** What each routine touches *)

Lemma set_i2c_log_twice (l1 l2 : list i2c_access) (m : Machine) :
  set_i2c_log l2 (set_i2c_log l1 m) = set_i2c_log l2 m.
Proof. reflexivity. Qed.

Lemma i2c_only_ret {A : Type} (a : A) : i2c_only (ret a).
Proof. intros m. now destruct m. Qed.

Lemma i2c_only_get {A : Type} (f : Machine -> A) : i2c_only (get f).
Proof. intros m. now destruct m. Qed.

Lemma i2c_only_bind {A B : Type} (c : M A) (k : A -> M B) :
  i2c_only c -> (forall a, i2c_only (k a)) -> i2c_only (bind c k).
Proof.
  intros Hc Hk m. rewrite bind_eq.
  rewrite (Hk (fst (c m)) (snd (c m))). rewrite (Hc m) at 2.
  apply set_i2c_log_twice.
Qed.

Lemma i2c_only_for_each {A : Type} (body : Z -> A -> M A) :
  (forall i a, i2c_only (body i a)) ->
  forall l a, i2c_only (for_each l body a).
Proof.
  intros Hb. induction l as [|i l IH]; intros a; cbn [for_each].
  - apply i2c_only_ret.
  - apply i2c_only_bind; auto.
Qed.

Lemma i2c_only_do (a : i2c_access) : i2c_only (i2c_do a).
Proof. intros m. reflexivity. Qed.

Lemma i2c_only_keeps {A : Type} (c : M A) : i2c_only c -> keeps_core c.
Proof. intros H m. rewrite (H m). reflexivity. Qed.

Lemma i2c_only_uart {A : Type} (c : M A) (m : Machine) :
  i2c_only c -> uart_tx (snd (c m)) = uart_tx m.
Proof. intros H. rewrite (H m). reflexivity. Qed.

Lemma uart_only_keeps {A : Type} (c : M A) : uart_only c -> keeps_core c.
Proof. intros H m. destruct (H m) as [out ->]. reflexivity. Qed.

Lemma keeps_core_ret {A : Type} (a : A) : keeps_core (ret a).
Proof. intros m. reflexivity. Qed.

Lemma keeps_core_get {A : Type} (f : Machine -> A) : keeps_core (get f).
Proof. intros m. reflexivity. Qed.

Lemma keeps_core_bind {A B : Type} (c : M A) (k : A -> M B) :
  keeps_core c -> (forall a, keeps_core (k a)) -> keeps_core (bind c k).
Proof. intros Hc Hk m. rewrite bind_eq, Hk. apply Hc. Qed.

Create HintDb i2c.
#[local] Hint Resolve i2c_only_ret i2c_only_get i2c_only_do : i2c.

(** The handlers read and write globals and pins only. *)
Lemma handle_core (e : event) (m : Machine) :
  core (handle e m) = handle e (core m).
Proof. destruct e; reflexivity. Qed.

Lemma serve_core (evs : list event) : forall m,
  core (serve evs m) = serve evs (core m).
Proof.
  induction evs as [|e evs IH]; intros m; [reflexivity|].
  rewrite !serve_cons, IH. now rewrite handle_core.
Qed.

Lemma handle_uart (e : event) (m : Machine) : uart_tx (handle e m) = uart_tx m.
Proof. destruct e; reflexivity. Qed.

Lemma serve_uart (evs : list event) : forall m,
  uart_tx (serve evs m) = uart_tx m.
Proof.
  induction evs as [|e evs IH]; intros m; [reflexivity|].
  now rewrite serve_cons, IH, handle_uart.
Qed.

Section Driver.

Variable tgt : Target.
Variable dev : Sensor.

Lemma i2c_only_read_SR1 : i2c_only (read_SR1 dev).
Proof. intros m. reflexivity. Qed.

Lemma i2c_only_read_DR : i2c_only (read_DR dev).
Proof. intros m. reflexivity. Qed.

Lemma i2c_only_wait_flag (flag : Z) (timeout : nat) :
  i2c_only (wait_flag dev flag timeout).
Proof.
  induction timeout as [|t IH]; cbn [wait_flag];
    (apply i2c_only_bind; [apply i2c_only_read_SR1|]); intros sr;
    destruct (negb (Z.land sr flag =? 0)); auto with i2c.
Qed.

#[local] Hint Resolve i2c_only_read_SR1 i2c_only_read_DR i2c_only_wait_flag : i2c.

Ltac i2c_frame :=
  repeat first
    [ solve [auto with i2c]
    | apply i2c_only_bind; [|intros ?] ].

Lemma i2c_only_start : i2c_only (i2c_start tgt dev).
Proof. unfold i2c_start. i2c_frame. Qed.

Lemma i2c_only_stop : i2c_only (i2c_stop tgt).
Proof. unfold i2c_stop. i2c_frame. Qed.

Lemma i2c_only_write_addr (addr : Z) : i2c_only (i2c_write_addr tgt dev addr).
Proof. unfold i2c_write_addr. i2c_frame. Qed.

Lemma i2c_only_write_data (data : Z) : i2c_only (i2c_write_data tgt dev data).
Proof. unfold i2c_write_data. i2c_frame. Qed.

Lemma i2c_only_read_ack : i2c_only (i2c_read_ack tgt dev).
Proof. unfold i2c_read_ack. i2c_frame. Qed.

Lemma i2c_only_read_nack : i2c_only (i2c_read_nack tgt dev).
Proof. unfold i2c_read_nack. i2c_frame. Qed.

#[local] Hint Resolve i2c_only_start i2c_only_stop i2c_only_write_addr
  i2c_only_write_data i2c_only_read_ack i2c_only_read_nack : i2c.

Lemma i2c_only_write (reg val : Z) : i2c_only (i2c_write tgt dev reg val).
Proof. unfold i2c_write. i2c_frame. Qed.

Lemma i2c_only_read_burst (reg n : Z) (dst : list Z) :
  i2c_only (i2c_read_burst tgt dev reg n dst).
Proof.
  unfold i2c_read_burst. i2c_frame.
  apply i2c_only_for_each. intros i buf. i2c_frame.
  destruct (i =? n - 1); auto with i2c.
Qed.

#[local] Hint Resolve i2c_only_write i2c_only_read_burst : i2c.

Lemma i2c_only_mpu_begin : i2c_only (mpu_begin tgt dev).
Proof. unfold mpu_begin, delay_ms. i2c_frame. Qed.

Lemma i2c_only_mpu_read_with (burst : burst_read) (s : Sample) :
  (forall reg n dst, i2c_only (burst reg n dst)) ->
  i2c_only (mpu_read_with burst s).
Proof.
  intros Hb. unfold mpu_read_with. apply i2c_only_bind; [apply Hb|].
  intros [r buf]. destruct (negb (u8 r =? 14)); i2c_frame.
Qed.

Lemma i2c_only_mpu_read (s : Sample) : i2c_only (mpu_read tgt dev s).
Proof. apply i2c_only_mpu_read_with. intros. apply i2c_only_read_burst. Qed.

Lemma i2c_only_payload (now : Z) :
  i2c_only (payload_with (i2c_read_burst tgt dev) now).
Proof.
  unfold payload_with. apply i2c_only_bind; [apply i2c_only_get|].
  intros [[[tFL tFR] tBL] tBR].
  apply i2c_only_bind; [apply i2c_only_mpu_read|].
  intros [ok s]. apply i2c_only_ret.
Qed.

End Driver.

(** ** Arrays and loops *)

Lemma map_rd_seq (pre p : list Z) :
  map (rd (pre ++ p)) (map Z.of_nat (seq (length pre) (length p))) = p.
Proof.
  revert pre. induction p as [|b p IH]; intros pre; [reflexivity|].
  cbn [length seq map]. f_equal.
  - unfold rd. rewrite Nat2Z.id, app_nth2, Nat.sub_diag by lia. reflexivity.
  - specialize (IH (pre ++ [b])). rewrite <- app_assoc in IH. cbn [app] in IH.
    rewrite length_app in IH. cbn [length] in IH.
    now rewrite Nat.add_1_r in IH.
Qed.

Lemma map_rd_Zseq (p : list Z) : map (rd p) (Zseq (Z.of_nat (length p))) = p.
Proof. unfold Zseq. rewrite Nat2Z.id. exact (map_rd_seq [] p). Qed.

Lemma fold_left_rd {A : Type} (f : A -> Z -> A) (p : list Z) (l : list Z) (a : A) :
  fold_left (fun c i => f c (rd p i)) l a = fold_left f (map (rd p) l) a.
Proof. revert a. induction l; intros; simpl; auto. Qed.

(** ** Bytes and checksum *)

Lemma le_bytes_length (n : nat) : forall x, length (le_bytes n x) = n.
Proof. induction n; intros; simpl; auto. Qed.

Lemma le_bytes_byte (n : nat) : forall x, Forall is_byte (le_bytes n x).
Proof.
  induction n; intros x; simpl; constructor; auto.
  apply Z.mod_pos_bound. lia.
Qed.

Lemma obj_bytes_length (o : byte_order) (n : nat) (x : Z) :
  length (obj_bytes o n x) = n.
Proof. destruct o; simpl; rewrite ?length_rev; apply le_bytes_length. Qed.

Lemma obj_bytes_byte (o : byte_order) (n : nat) (x : Z) :
  Forall is_byte (obj_bytes o n x).
Proof.
  destruct o; simpl; [apply le_bytes_byte|].
  apply Forall_rev, le_bytes_byte.
Qed.

Lemma Payload_bytes_length (tgt : Target) (p : Payload.t) :
  length (Payload_bytes tgt p) = 46%nat.
Proof. unfold Payload_bytes. rewrite !length_app, !obj_bytes_length. reflexivity. Qed.

Lemma Payload_bytes_byte (tgt : Target) (p : Payload.t) :
  Forall is_byte (Payload_bytes tgt p).
Proof.
  unfold Payload_bytes. repeat (apply Forall_app; split); apply obj_bytes_byte.
Qed.

Lemma lxor_byte (a b : Z) : is_byte a -> is_byte b -> is_byte (Z.lxor a b).
Proof.
  unfold is_byte. intros Ha Hb. split.
  - apply Z.lxor_nonneg. lia.
  - destruct (Z.eq_dec (Z.lxor a b) 0) as [->|Hn]; [lia|].
    apply Z.log2_lt_cancel. rewrite Z.log2_pow2 by lia.
    eapply Z.le_lt_trans; [apply Z.log2_lxor; lia|].
    apply Z.max_lub_lt.
    + destruct (Z.eq_dec a 0) as [->|]; [simpl; lia|].
      apply Z.log2_lt_pow2; lia.
    + destruct (Z.eq_dec b 0) as [->|]; [simpl; lia|].
      apply Z.log2_lt_pow2; lia.
Qed.

Lemma xor_all_byte (l : list Z) : Forall is_byte l -> is_byte (xor_all l).
Proof.
  induction 1 as [|b l Hb Hl IH]; simpl.
  - unfold is_byte. lia.
  - now apply lxor_byte.
Qed.

Lemma fold_xor_u8 (l : list Z) : forall c,
  is_byte c -> Forall is_byte l ->
  fold_left (fun c b => u8 (Z.lxor c b)) l c = Z.lxor c (xor_all l).
Proof.
  induction l as [|b l IH]; intros c Hc Hl; simpl.
  - now rewrite Z.lxor_0_r.
  - inversion Hl as [|? ? Hb Hl']; subst.
    assert (Hx : is_byte (Z.lxor c b)) by now apply lxor_byte.
    unfold u8 at 2. rewrite Z.mod_small by exact Hx.
    rewrite IH by assumption. apply Z.lxor_assoc.
Qed.

(** The loop of [checksum_xor] over a whole array of bytes computes their
    XOR. *)
Lemma checksum_xor_all (p : list Z) :
  Forall is_byte p -> checksum_xor p (Z.of_nat (length p)) = xor_all p.
Proof.
  intros Hp. unfold checksum_xor.
  rewrite (fold_left_rd (fun c b => u8 (Z.lxor c b))), map_rd_Zseq.
  rewrite fold_xor_u8; auto. unfold is_byte. lia.
Qed.

(** ** Transmission *)

Lemma for_each_send (data : list Z) (l : list Z) : forall m,
  for_each l (fun i _ => uart_send_byte (rd data i)) tt m
  = (tt, set_uart_tx (uart_tx m ++ map (rd data) l) m).
Proof.
  induction l as [|i l IH]; intros m; cbn [for_each map].
  - rewrite app_nil_r. now destruct m.
  - rewrite bind_eq. cbn [uart_send_byte modify fst snd]. rewrite IH.
    destruct m; cbn. now rewrite <- app_assoc.
Qed.

Lemma send_payload_eq (tgt : Target) (p : Payload.t) (m : Machine) :
  send_payload tgt p m
  = (tt, set_uart_tx
           (uart_tx m ++
            [0xAA; 0x55] ++ Payload_bytes tgt p ++
            [xor_all (Payload_bytes tgt p)]) m).
Proof.
  unfold send_payload. rewrite !bind_eq. cbn [uart_send_byte modify fst snd].
  rewrite for_each_send. cbn [fst snd].
  replace sizeof_Payload with (Z.of_nat (length (Payload_bytes tgt p)))
    by now rewrite Payload_bytes_length.
  rewrite map_rd_Zseq, checksum_xor_all by apply Payload_bytes_byte.
  unfold uart_send_byte, modify. destruct m. cbn -[Payload_bytes xor_all].
  rewrite <- !app_assoc. reflexivity.
Qed.

Lemma frame_eq (tgt : Target) (p : Payload.t) :
  frame tgt p
  = [0xAA; 0x55] ++ Payload_bytes tgt p ++ [xor_all (Payload_bytes tgt p)].
Proof. unfold frame. rewrite send_payload_eq. reflexivity. Qed.

Lemma send_payload_frame (tgt : Target) (p : Payload.t) (m : Machine) :
  send_payload tgt p m = (tt, set_uart_tx (uart_tx m ++ frame tgt p) m).
Proof. now rewrite send_payload_eq, frame_eq. Qed.

Lemma uart_only_send_payload (tgt : Target) (p : Payload.t) :
  uart_only (send_payload tgt p).
Proof. intros m. exists (frame tgt p). now rewrite send_payload_frame. Qed.

(** ** The main loop *)

Lemma main_loop_step (tgt : Target) (burst : burst_read)
      (pre mid : list event) (rest : list (list event * list event))
      (last : Z) (m : Machine) :
  main_loop tgt burst ((pre, mid) :: rest) last m
  = let m1 := serve pre m in
    let now := millis m1 in
    let m2 := serve mid m1 in
    if u32 (now - last) <? 10 then main_loop tgt burst rest last m2
    else main_loop tgt burst rest now (snd (acquire_with tgt burst now m2)).
Proof.
  cbn [main_loop]. rewrite !bind_eq. cbn [get fst snd].
  change (snd (run_events pre m)) with (serve pre m).
  destruct (u32 (millis (serve pre m) - last) <? 10); now rewrite !bind_eq.
Qed.

Lemma acquire_eq (tgt : Target) (burst : burst_read) (now : Z) (m : Machine) :
  acquire_with tgt burst now m
  = (tt, set_uart_tx
           (uart_tx (snd (payload_with burst now m))
            ++ frame tgt (fst (payload_with burst now m)))
           (snd (payload_with burst now m))).
Proof. unfold acquire_with. now rewrite bind_eq, send_payload_frame. Qed.

Section Loop.

Variable tgt : Target.
Variable dev : Sensor.

Lemma keeps_core_acquire (now : Z) : keeps_core (acquire tgt dev now).
Proof.
  unfold acquire, acquire_with. apply keeps_core_bind.
  - apply i2c_only_keeps, i2c_only_payload.
  - intros p. apply uart_only_keeps, uart_only_send_payload.
Qed.

(** The globals after any number of passes are what the interrupt
    handlers alone made of them. *)
Lemma main_loop_core (sched : list (list event * list event)) :
  forall last m,
    core (snd (main_loop tgt (i2c_read_burst tgt dev) sched last m))
    = serve (events_of sched) (core m).
Proof.
  induction sched as [|[pre mid] rest IH]; intros last m; [reflexivity|].
  rewrite main_loop_step. cbv zeta.
  unfold events_of. cbn [map concat fst snd]. fold (events_of rest).
  rewrite !serve_app.
  destruct (u32 (millis (serve pre m) - last) <? 10); rewrite IH.
  - now rewrite !serve_core.
  - change (acquire_with tgt (i2c_read_burst tgt dev)) with (acquire tgt dev).
    rewrite (keeps_core_acquire _ _). now rewrite !serve_core.
Qed.

(** What the loop sends is the sequence of the frames of its payloads. *)
Lemma main_loop_tx (sched : list (list event * list event)) :
  forall last m,
    uart_tx (snd (main_loop tgt (i2c_read_burst tgt dev) sched last m))
    = uart_tx m ++ concat (map (frame tgt) (payloads_of tgt dev sched last m)).
Proof.
  induction sched as [|[pre mid] rest IH]; intros last m.
  - simpl. now rewrite app_nil_r.
  - rewrite main_loop_step. cbv zeta. cbn [payloads_of].
    destruct (u32 (millis (serve pre m) - last) <? 10).
    + rewrite IH. now rewrite !serve_uart.
    + rewrite IH, acquire_eq. cbn [snd].
      destruct (payload_with (i2c_read_burst tgt dev) (millis (serve pre m))
                  (serve mid (serve pre m))) as [p m3] eqn:E.
      cbn [fst snd map concat]. rewrite send_payload_frame. cbn [snd].
      replace (uart_tx (set_uart_tx (uart_tx m3 ++ frame tgt p) m3))
        with (uart_tx m3 ++ frame tgt p) by now destruct m3.
      assert (U : uart_tx m3 = uart_tx m).
      { change m3 with (snd (p, m3)). rewrite <- E.
        rewrite i2c_only_uart by apply i2c_only_payload.
        now rewrite !serve_uart. }
      rewrite U, <- app_assoc. reflexivity.
Qed.

End Loop.

(** ** Frames *)

Lemma frame_length (tgt : Target) (p : Payload.t) : length (frame tgt p) = 49%nat.
Proof.
  rewrite frame_eq, !length_app, Payload_bytes_length. reflexivity.
Qed.

Lemma frame_payload (tgt : Target) (p : Payload.t) :
  slice 2 46 (frame tgt p) = Payload_bytes tgt p.
Proof.
  rewrite frame_eq. unfold slice. cbn [app skipn].
  rewrite <- (Payload_bytes_length tgt p), firstn_app, Nat.sub_diag, firstn_all.
  cbn [firstn]. apply app_nil_r.
Qed.

Lemma frame_checksum (tgt : Target) (p : Payload.t) :
  nth 48 (frame tgt p) 0 = xor_all (Payload_bytes tgt p).
Proof.
  rewrite frame_eq. cbn [app nth].
  rewrite app_nth2; rewrite Payload_bytes_length; [reflexivity|lia].
Qed.

Lemma frame_flags (tgt : Target) (p : Payload.t) :
  slice 46 2 (frame tgt p) = obj_bytes (endianness tgt) 2 (u16 (Payload.flags p)).
Proof.
  rewrite frame_eq. unfold Payload_bytes.
  destruct (endianness tgt); reflexivity.
Qed.

Lemma enc_of_core (w : wheel) (m : Machine) : enc_of w (core m) = enc_of w m.
Proof. now destruct w. Qed.

Lemma prev_of_core (w : wheel) (m : Machine) : prev_of w (core m) = prev_of w m.
Proof. now destruct w. Qed.

(** ** Return values of the driver *)

Lemma i2c_read_burst_count (tgt : Target) (dev : Sensor) (reg n : Z)
      (dst : list Z) (m : Machine) :
  fst (fst (i2c_read_burst tgt dev reg n dst m)) = n.
Proof. unfold i2c_read_burst. now rewrite !bind_eq. Qed.

Lemma mpu_begin_ok (tgt : Target) (dev : Sensor) (m : Machine) :
  fst (mpu_begin tgt dev m) = 1.
Proof. unfold mpu_begin. now rewrite !bind_eq. Qed.

Lemma mpu_read_with_ok (burst : burst_read) (s : Sample) (m : Machine) :
  fst (fst (mpu_read_with burst s m))
  = if u8 (fst (fst (burst REG_ACCEL_XOUT_H 14 (repeat 0 14%nat) m))) =? 14
    then 1 else 0.
Proof.
  unfold mpu_read_with. rewrite bind_eq.
  destruct (burst REG_ACCEL_XOUT_H 14 (repeat 0 14%nat) m) as [[r buf] m1].
  cbn [fst snd]. destruct (u8 r =? 14); cbn [negb]; [rewrite bind_eq|];
    reflexivity.
Qed.

Lemma mpu_read_ok (tgt : Target) (dev : Sensor) (s : Sample) (m : Machine) :
  fst (fst (mpu_read tgt dev s m)) = 1.
Proof.
  unfold mpu_read. now rewrite mpu_read_with_ok, i2c_read_burst_count.
Qed.

Lemma payload_with_flags (burst : burst_read) (now : Z) (m : Machine) :
  Payload.flags (fst (payload_with burst now m))
  = if u8 (fst (fst (mpu_read_with burst Sample_zero m))) =? 0 then 1 else 0.
Proof.
  unfold payload_with. rewrite bind_eq. cbn [get fst snd]. rewrite bind_eq.
  destruct (mpu_read_with burst Sample_zero m) as [[ok s] m1]. reflexivity.
Qed.

Lemma payloads_of_flags (tgt : Target) (dev : Sensor)
      (sched : list (list event * list event)) :
  forall last m,
    Forall (fun p => Payload.flags p = 0) (payloads_of tgt dev sched last m).
Proof.
  induction sched as [|[pre mid] rest IH]; intros last m; cbn [payloads_of].
  - constructor.
  - destruct (u32 (millis (serve pre m) - last) <? 10); [apply IH|].
    destruct (payload_with (i2c_read_burst tgt dev) (millis (serve pre m))
                (serve mid (serve pre m))) as [p m3] eqn:E.
    constructor; [|apply IH].
    change p with (fst (p, m3)). rewrite <- E, payload_with_flags.
    change (mpu_read_with (i2c_read_burst tgt dev)) with (mpu_read tgt dev).
    now rewrite mpu_read_ok.
Qed.

(** ** Start-up *)

Lemma capture_phases_uart (m : Machine) :
  uart_tx (snd (capture_phases m)) = uart_tx m.
Proof. reflexivity. Qed.

Lemma calibrate_with_eq (burst : burst_read) (m : Machine) :
  exists sum m1,
    calibrate_with burst m = (tt, set_gyro_bias_z (f_div sum (f_of_int 400)) m1) /\
    ((forall reg n dst, i2c_only (burst reg n dst)) ->
     m1 = set_i2c_log (i2c_log m1) m).
Proof.
  unfold calibrate_with. rewrite bind_eq.
  match goal with |- context [for_each ?l ?b ?a m] =>
    set (loop := for_each l b a) end.
  exists (fst (loop m)), (snd (loop m)). split; [reflexivity|].
  intros Hb. assert (H : i2c_only loop); [|apply H].
  apply i2c_only_for_each. intros i sum.
  apply i2c_only_bind; [now apply i2c_only_mpu_read_with|].
  intros [ok s]. apply i2c_only_bind; [apply i2c_only_get|].
  intros bias. apply i2c_only_bind; [apply i2c_only_ret|].
  intros _. apply i2c_only_ret.
Qed.

Lemma calibrate_uart (tgt : Target) (dev : Sensor) (m : Machine) :
  uart_tx (snd (calibrate tgt dev m)) = uart_tx m.
Proof.
  destruct (calibrate_with_eq (i2c_read_burst tgt dev) m) as (sum & m1 & E & H).
  unfold calibrate. rewrite E. cbn [snd].
  rewrite (H (i2c_only_read_burst tgt dev)). reflexivity.
Qed.

Lemma main_with_fail (tgt : Target) (begin : M Z) (burst : burst_read)
      (sched : list (list event * list event)) (m : Machine) :
  u8 (fst (begin m)) = 0 ->
  main_with tgt begin burst sched m = hang sched (snd (begin m)).
Proof. intros H. unfold main_with. now rewrite bind_eq, H. Qed.

Lemma main_tx (tgt : Target) (dev : Sensor)
      (sched : list (list event * list event)) (m : Machine) :
  exists m1,
    uart_tx m1 = uart_tx m /\
    uart_tx (snd (main tgt dev sched m))
    = uart_tx m ++ concat (map (frame tgt) (payloads_of tgt dev sched 0 m1)).
Proof.
  unfold main, main_with. rewrite bind_eq, mpu_begin_ok.
  change (u8 1 =? 0) with false. cbv iota. rewrite !bind_eq. cbn [ret snd].
  set (m0 := snd (mpu_begin tgt dev m)).
  set (m1 := snd (capture_phases (snd (calibrate_with (i2c_read_burst tgt dev) m0)))).
  assert (U : uart_tx m1 = uart_tx m).
  { unfold m1. rewrite capture_phases_uart.
    change (calibrate_with (i2c_read_burst tgt dev)) with (calibrate tgt dev).
    rewrite calibrate_uart. unfold m0.
    apply i2c_only_uart, i2c_only_mpu_begin. }
  exists m1. split; [exact U|]. now rewrite main_loop_tx, U.
Qed.

(** * The claims *)

(** C1. For every payload (and byte order), the frame [send_payload]
    transmits has 49 bytes; its byte 48 is the XOR of its bytes 2..47,
    which are the 46 bytes of the payload; the header bytes 0 and 1 are not
    part of it, and the XOR that included them would differ. *)
Theorem C1_checksum_is_xor_of_payload :
  forall (tgt : Target) (p : Payload.t) (m : Machine),
    send_payload tgt p m = (tt, set_uart_tx (uart_tx m ++ frame tgt p) m) /\
    length (frame tgt p) = 49%nat /\
    nth 48 (frame tgt p) 0 = xor_all (slice 2 46 (frame tgt p)) /\
    slice 2 46 (frame tgt p) = Payload_bytes tgt p /\
    nth 48 (frame tgt p) 0 = checksum_xor (Payload_bytes tgt p) sizeof_Payload /\
    nth 48 (frame tgt p) 0 <> xor_all (slice 0 48 (frame tgt p)).
Proof.
  intros tgt p m.
  pose proof (Payload_bytes_byte tgt p) as Hb.
  pose proof (Payload_bytes_length tgt p) as Hl.
  split; [|split; [|split; [|split; [|split]]]].
  - apply send_payload_frame.
  - apply frame_length.
  - now rewrite frame_payload, frame_checksum.
  - apply frame_payload.
  - rewrite frame_checksum.
    replace sizeof_Payload with (Z.of_nat (length (Payload_bytes tgt p)))
      by now rewrite Hl.
    now rewrite checksum_xor_all.
  - rewrite frame_checksum.
    assert (E : slice 0 48 (frame tgt p) = [0xAA; 0x55] ++ Payload_bytes tgt p).
    { rewrite frame_eq. unfold slice. cbn [skipn app]. rewrite !firstn_cons.
      do 2 f_equal. rewrite firstn_app, Hl, firstn_all2 by lia.
      cbn [Nat.sub firstn]. apply app_nil_r. }
    rewrite E. cbn [app xor_all fold_right]. fold (xor_all (Payload_bytes tgt p)).
    rewrite <- (Z.lxor_assoc 170 85). change (Z.lxor 170 85) with 255.
    intros H. apply (f_equal (Z.lxor (xor_all (Payload_bytes tgt p)))) in H.
    rewrite Z.lxor_nilpotent, (Z.lxor_comm 255), <- Z.lxor_assoc,
      Z.lxor_nilpotent in H. discriminate H.
Qed.

(** C9. The edge handler of a wheel changes the count and the last phase
    of that wheel only: the three other wheels, the gyro bias, the
    millisecond counter (and the pins and the bus and serial records) are
    left as they were.  A pass of the main loop changes no count and no
    last phase, so that after any run of the loop they are what the
    handlers made of them. *)
Theorem C9_handlers_own_their_wheel :
  (forall (w : wheel) (m : Machine),
     (forall v, v <> w ->
        enc_of v (isr_of w m) = enc_of v m /\
        prev_of v (isr_of w m) = prev_of v m) /\
     gyro_bias_z (isr_of w m) = gyro_bias_z m /\
     systick_millis (isr_of w m) = systick_millis m /\
     GPIOA_IDR (isr_of w m) = GPIOA_IDR m /\
     GPIOB_IDR (isr_of w m) = GPIOB_IDR m /\
     i2c_log (isr_of w m) = i2c_log m /\
     uart_tx (isr_of w m) = uart_tx m) /\
  (forall (tgt : Target) (dev : Sensor) (now : Z) (m : Machine) (w : wheel),
     enc_of w (snd (acquire tgt dev now m)) = enc_of w m /\
     prev_of w (snd (acquire tgt dev now m)) = prev_of w m) /\
  (forall (tgt : Target) (dev : Sensor) (sched : list (list event * list event))
          (last : Z) (m : Machine) (w : wheel),
     enc_of w (snd (main_loop tgt (i2c_read_burst tgt dev) sched last m))
     = enc_of w (serve (events_of sched) m) /\
     prev_of w (snd (main_loop tgt (i2c_read_burst tgt dev) sched last m))
     = prev_of w (serve (events_of sched) m)).
Proof.
  split; [|split].
  - intros w m. split.
    + intros v Hv. destruct w, v; try congruence; now split.
    + destruct w; repeat split.
  - intros tgt dev now m w.
    rewrite <- (enc_of_core w (snd _)), <- (prev_of_core w (snd _)).
    rewrite keeps_core_acquire. now rewrite enc_of_core, prev_of_core.
  - intros tgt dev sched last m w.
    rewrite <- (enc_of_core w (snd _)), <- (prev_of_core w (snd _)).
    rewrite main_loop_core, <- serve_core.
    now rewrite enc_of_core, prev_of_core.
Qed.

Lemma C9_handlers_own_their_wheel_witness :
  let m := isrFL (set_pins 256 0 (reset 0 0)) in
  encFL m = 1 /\ encFR m = 0 /\ prevFR m = 0.
Proof.
  destruct C9_handlers_own_their_wheel as [H _].
  destruct (H FL (set_pins 256 0 (reset 0 0))) as [H1 _].
  assert (N : FR <> FL) by discriminate.
  destruct (H1 FR N) as [H2 H3].
  split; [reflexivity|]. split; [exact H2 | exact H3].
Defined.

(** C10. The burst read returns the count it was asked for, whatever the
    bus does; hence [mpu_read] always returns 1, every payload the loop
    builds has [flags = 0], and everything [main] ever transmits is a
    sequence of frames whose payloads have [flags = 0] (bytes 46 and 47
    both zero): the branch for a failed sensor read is never taken. *)
Theorem C10_burst_read_never_short :
  forall (tgt : Target) (dev : Sensor),
    (forall reg n dst m, fst (fst (i2c_read_burst tgt dev reg n dst m)) = n) /\
    (forall s m, fst (fst (mpu_read tgt dev s m)) = 1) /\
    (forall now m,
       Payload.flags (fst (payload_with (i2c_read_burst tgt dev) now m)) = 0) /\
    (forall sched m,
       exists ps,
         uart_tx (snd (main tgt dev sched m))
         = uart_tx m ++ concat (map (frame tgt) ps) /\
         Forall (fun p => Payload.flags p = 0 /\
                          slice 46 2 (frame tgt p) = [0; 0]) ps).
Proof.
  intros tgt dev. repeat split.
  - intros. apply i2c_read_burst_count.
  - intros. apply mpu_read_ok.
  - intros. rewrite payload_with_flags.
    change (mpu_read_with (i2c_read_burst tgt dev)) with (mpu_read tgt dev).
    now rewrite mpu_read_ok.
  - intros sched m. destruct (main_tx tgt dev sched m) as (m1 & _ & E).
    exists (payloads_of tgt dev sched 0 m1). split; [exact E|].
    eapply Forall_impl; [|apply payloads_of_flags].
    intros p Hp. split; [exact Hp|].
    rewrite frame_flags, Hp. now destruct (endianness tgt).
Qed.

(** C5. Over any burst-read primitive that reports at most the 14 bytes
    asked for: [mpu_read] returns 0 (sample not valid) exactly when fewer
    than 14 bytes were reported, and then the payload built in that pass
    has [flags = 0x0001]; when all 14 bytes were reported it returns 1 and
    the payload has [flags = 0x0000].  The frame sent in that pass is the
    frame of this payload; on a little-endian target its bytes 46 and 47
    are the flags, low byte first. *)
Theorem C5_short_read_sets_flag :
  forall (burst : burst_read) (s : Sample) (now : Z) (m : Machine),
    let r := fst (fst (burst REG_ACCEL_XOUT_H 14 (repeat 0 14%nat) m)) in
    let p := fst (payload_with burst now m) in
    0 <= r <= 14 ->
    (fst (fst (mpu_read_with burst s m)) = 0 <-> r < 14) /\
    (r < 14 -> Payload.flags p = 0x0001) /\
    (r = 14 -> fst (fst (mpu_read_with burst s m)) = 1 /\ Payload.flags p = 0) /\
    (forall tgt,
       uart_tx (snd (acquire_with tgt burst now m))
       = uart_tx (snd (payload_with burst now m)) ++ frame tgt p) /\
    (forall tgt, endianness tgt = LittleEndian ->
       slice 46 2 (frame tgt p) = [Payload.flags p; 0]).
Proof.
  intros burst s now m r p Hr.
  assert (Hu : u8 r = r) by (unfold u8; apply Z.mod_small; lia).
  assert (Hs : forall s', fst (fst (mpu_read_with burst s' m))
                          = if r =? 14 then 1 else 0).
  { intros s'. rewrite mpu_read_with_ok. fold r. now rewrite Hu. }
  assert (Hf : Payload.flags p = if r =? 14 then 0 else 1).
  { unfold p. rewrite payload_with_flags, Hs. now destruct (r =? 14). }
  split; [|split; [|split; [|split]]].
  - rewrite Hs. destruct (Z.eqb_spec r 14); split; intros; (discriminate || lia).
  - intros Hlt. rewrite Hf. destruct (Z.eqb_spec r 14); [lia|reflexivity].
  - intros He. rewrite Hs, Hf, He. now split.
  - intros tgt. rewrite acquire_eq. cbn [snd].
    now destruct (snd (payload_with burst now m)).
  - intros tgt Ht. rewrite frame_flags, Ht, Hf.
    now destruct (r =? 14).
Qed.

Lemma C5_short_read_sets_flag_witness :
  let burst : burst_read := fun _ _ dst => ret (13, dst) in
  fst (fst (mpu_read_with burst Sample_zero (reset 0 0))) = 0 /\
  Payload.flags (fst (payload_with burst 10 (reset 0 0))) = 1.
Proof.
  intros burst.
  assert (Hr : 0 <= fst (fst (burst REG_ACCEL_XOUT_H 14 (repeat 0 14%nat) (reset 0 0)))
               <= 14) by (simpl; lia).
  destruct (C5_short_read_sets_flag burst Sample_zero 10 (reset 0 0) Hr)
    as (H1 & H2 & _).
  split.
  - apply H1. simpl. lia.
  - apply H2. simpl. lia.
Defined.

(** C8. The sensor initialisation sends nothing, so no byte has been
    transmitted when it returns.  If the initialisation returns 0, [main]
    is the endless empty loop: whatever interrupts are served afterwards,
    nothing is ever transmitted, the machine only follows the tick and the
    pins.  (The initialisation the firmware links always returns 1.) *)
Theorem C8_no_frame_without_init :
  forall (tgt : Target) (sched : list (list event * list event)) (m : Machine),
    (forall dev,
       uart_tx (snd (mpu_begin tgt dev m)) = uart_tx m /\
       fst (mpu_begin tgt dev m) = 1) /\
    (forall (begin : M Z) (burst : burst_read),
       u8 (fst (begin m)) = 0 ->
       snd (main_with tgt begin burst sched m)
       = serve (filter (fun e => negb (is_exti e)) (events_of sched))
               (snd (begin m)) /\
       uart_tx (snd (main_with tgt begin burst sched m)) = uart_tx (snd (begin m))) /\
    (forall (begin : M Z) (burst : burst_read),
       uart_tx (snd (begin m)) = uart_tx m ->
       uart_tx m = [] ->
       u8 (fst (begin m)) = 0 ->
       uart_tx (snd (main_with tgt begin burst sched m)) = []).
Proof.
  intros tgt sched m.
  assert (F : forall (begin : M Z) (burst : burst_read),
             u8 (fst (begin m)) = 0 ->
             snd (main_with tgt begin burst sched m)
             = serve (filter (fun e => negb (is_exti e)) (events_of sched))
                     (snd (begin m))).
  { intros begin burst H. now rewrite main_with_fail. }
  split; [|split].
  - intros dev. split; [|apply mpu_begin_ok].
    apply i2c_only_uart, i2c_only_mpu_begin.
  - intros begin burst H. split; [now apply F|].
    rewrite F by assumption. apply serve_uart.
  - intros begin burst Hb Hm H. rewrite F by assumption.
    now rewrite serve_uart, Hb.
Qed.

Lemma C8_no_frame_without_init_witness :
  uart_tx (snd (main_with stm32f103 (ret 0) (fun _ _ dst => ret (14, dst))
                  [([Tick; IRQ_FL], [Tick])] (reset 0 0))) = [].
Proof.
  destruct (C8_no_frame_without_init stm32f103 [([Tick; IRQ_FL], [Tick])]
              (reset 0 0)) as (_ & _ & H).
  apply H; reflexivity.
Defined.

(** ** Byte order *)

Lemma le_value_bytes (n : nat) : forall x,
  le_value (le_bytes n x) = x mod 2 ^ (8 * Z.of_nat n).
Proof.
  induction n as [|n IH]; intros x.
  - simpl. now rewrite Z.mod_1_r.
  - cbn [le_bytes le_value]. rewrite IH.
    replace (8 * Z.of_nat (S n)) with (8 + 8 * Z.of_nat n) by lia.
    rewrite Z.pow_add_r by lia.
    rewrite (Z.rem_mul_r x (2 ^ 8) (2 ^ (8 * Z.of_nat n))) by lia.
    reflexivity.
Qed.

Lemma i32_u32 (x : Z) : i32 (u32 x) = i32 x.
Proof.
  unfold i32, signed, u32. f_equal.
  change (2 ^ 32) with (2 ^ 32). rewrite Z.add_mod_idemp_l by lia. reflexivity.
Qed.

(** ** Bit patterns of floats *)

Lemma digits2_size (m : positive) : digits2_pos m = Pos.size m.
Proof. induction m; simpl; congruence. Qed.

Lemma size_bounds (m : positive) :
  2 ^ (Z.pos (Pos.size m) - 1) <= Z.pos m < 2 ^ Z.pos (Pos.size m).
Proof.
  pose proof (Pos.size_gt m) as G. pose proof (Pos.size_le m) as L.
  apply Pos2Z.pos_lt_pos in G. apply Pos2Z.pos_le_pos in L.
  rewrite Pos2Z.inj_pow in G, L. change (Z.pos m~0) with (2 * Z.pos m) in L.
  split; [|exact G].
  assert (E : 2 ^ Z.pos (Pos.size m) = 2 * 2 ^ (Z.pos (Pos.size m) - 1)).
  { rewrite <- Z.pow_succ_r by lia. f_equal. lia. }
  lia.
Qed.

Lemma float_of_bits_of_float (f : float) :
  f_valid f -> f <> S754_nan -> float_of_bits (bits_of_float f) = f.
Proof.
  unfold f_valid. intros V N.
  destruct f as [s|s| |s m e]; try congruence.
  - destruct s; reflexivity.
  - destruct s; reflexivity.
  - cbn [valid_binary] in V. unfold bounded, canonical_mantissa, fexp, emin in V.
    apply andb_prop in V. destruct V as [V1 V2].
    apply Z.eqb_eq in V1. apply Z.leb_le in V2.
    rewrite digits2_size in V1. pose proof (size_bounds m) as B.
    unfold f_prec, f_emax in *.
    unfold bits_of_float, float_of_bits.
    set (d := Z.pos (Pos.size m)) in *.
    assert (D : 0 < d) by (unfold d; lia).
    assert (C : (d = 24 /\ -149 <= e) \/ (d < 24 /\ e = -149)) by lia.
    set (sb := if s then 2 ^ 31 else 0).
    destruct C as [[Cd Ce] | [Cd Ce]].
    + rewrite Cd in B. change (2 ^ (24 - 1)) with 8388608 in B.
      change (2 ^ 24) with 16777216 in B.
      change (2 ^ 23) with 8388608.
      destruct (Z.ltb_spec (Z.pos m) 8388608) as [Hlt|_]; [lia|].
      set (b := sb + ((e + 150) * 8388608 + (Z.pos m - 8388608))).
      assert (Hs : Z.testbit b 31 = s).
      { rewrite Z.testbit_odd, Z.shiftr_div_pow2 by lia.
        change (2 ^ 31) with 2147483648.
        unfold b, sb. destruct s.
        - change (2 ^ 31) with 2147483648.
          replace ((2147483648 + ((e + 150) * 8388608 + (Z.pos m - 8388608)))
                   / 2147483648) with 1; [reflexivity|].
          apply Z.div_unique with
            ((e + 150) * 8388608 + (Z.pos m - 8388608)); lia.
        - rewrite Z.div_small; [reflexivity|lia]. }
      assert (He : (b / 8388608) mod 2 ^ 8 = e + 150).
      { change (2 ^ 8) with 256. unfold b, sb.
        destruct s; change (2 ^ 31) with 2147483648;
          Z.div_mod_to_equations; lia. }
      assert (Hf : b mod 8388608 = Z.pos m - 8388608).
      { unfold b, sb.
        destruct s; change (2 ^ 31) with 2147483648;
          Z.div_mod_to_equations; lia. }
      rewrite Hs, He, Hf.
      destruct (Z.eqb_spec (e + 150) 0); [lia|].
      destruct (Z.eqb_spec (e + 150) 255); [lia|].
      replace (Z.pos m - 8388608 + 8388608) with (Z.pos m) by lia.
      f_equal. lia.
    + assert (B2 : Z.pos m < 2 ^ 23).
      { eapply Z.lt_le_trans; [apply B|]. apply Z.pow_le_mono_r; lia. }
      change (2 ^ 23) with 8388608 in *.
      destruct (Z.ltb_spec (Z.pos m) 8388608) as [_|Hge]; [|lia].
      set (b := sb + Z.pos m).
      assert (Hs : Z.testbit b 31 = s).
      { rewrite Z.testbit_odd, Z.shiftr_div_pow2 by lia.
        change (2 ^ 31) with 2147483648.
        unfold b, sb. destruct s.
        - change (2 ^ 31) with 2147483648.
          replace ((2147483648 + Z.pos m) / 2147483648) with 1; [reflexivity|].
          apply Z.div_unique with (Z.pos m); lia.
        - rewrite Z.div_small; [reflexivity|lia]. }
      assert (He : (b / 8388608) mod 2 ^ 8 = 0).
      { change (2 ^ 8) with 256. unfold b, sb.
        destruct s; change (2 ^ 31) with 2147483648;
          Z.div_mod_to_equations; lia. }
      assert (Hf : b mod 8388608 = Z.pos m).
      { unfold b, sb.
        destruct s; change (2 ^ 31) with 2147483648;
          Z.div_mod_to_equations; lia. }
      rewrite Hs, He, Hf. cbn [Z.eqb]. now rewrite Ce.
Qed.

Lemma bits_of_float_range (f : float) :
  f_valid f -> 0 <= bits_of_float f < 2 ^ 32.
Proof.
  unfold f_valid. intros V.
  destruct f as [s|s| |s m e].
  - destruct s; simpl; lia.
  - destruct s; simpl; lia.
  - simpl; lia.
  - cbn [valid_binary] in V. unfold bounded, canonical_mantissa, fexp, emin in V.
    apply andb_prop in V. destruct V as [V1 V2].
    apply Z.eqb_eq in V1. apply Z.leb_le in V2.
    rewrite digits2_size in V1. pose proof (size_bounds m) as B.
    unfold f_prec, f_emax in *. unfold bits_of_float.
    set (d := Z.pos (Pos.size m)) in *.
    assert (C : (d = 24 /\ -149 <= e) \/ (d < 24 /\ e = -149)) by lia.
    change (2 ^ 23) with 8388608. change (2 ^ 31) with 2147483648.
    change (2 ^ 32) with 4294967296.
    destruct C as [[Cd Ce] | [Cd Ce]].
    + rewrite Cd in B. change (2 ^ (24 - 1)) with 8388608 in B.
      change (2 ^ 24) with 16777216 in B.
      destruct (Z.ltb_spec (Z.pos m) 8388608); destruct s; lia.
    + assert (B2 : Z.pos m < 2 ^ 23).
      { eapply Z.lt_le_trans; [apply B|]. apply Z.pow_le_mono_r; lia. }
      change (2 ^ 23) with 8388608 in B2.
      destruct (Z.ltb_spec (Z.pos m) 8388608); destruct s; lia.
Qed.

(** The fields of a frame, at the offsets of the wire format, in the byte
    order of the target. *)
Lemma frame_fields (tgt : Target) (p : Payload.t) :
  let f := frame tgt p in
  let o := endianness tgt in
  slice 0 2 f = [0xAA; 0x55] /\
  slice 2 4 f = obj_bytes o 4 (u32 (Payload.t_ms p)) /\
  slice 6 4 f = obj_bytes o 4 (u32 (Payload.ticksFL p)) /\
  slice 10 4 f = obj_bytes o 4 (u32 (Payload.ticksFR p)) /\
  slice 14 4 f = obj_bytes o 4 (u32 (Payload.ticksBL p)) /\
  slice 18 4 f = obj_bytes o 4 (u32 (Payload.ticksBR p)) /\
  slice 22 4 f = obj_bytes o 4 (bits_of_float (Payload.ax p)) /\
  slice 26 4 f = obj_bytes o 4 (bits_of_float (Payload.ay p)) /\
  slice 30 4 f = obj_bytes o 4 (bits_of_float (Payload.az p)) /\
  slice 34 4 f = obj_bytes o 4 (bits_of_float (Payload.gx p)) /\
  slice 38 4 f = obj_bytes o 4 (bits_of_float (Payload.gy p)) /\
  slice 42 4 f = obj_bytes o 4 (bits_of_float (Payload.gz p)) /\
  slice 46 2 f = obj_bytes o 2 (u16 (Payload.flags p)).
Proof.
  cbv zeta. rewrite frame_eq. unfold Payload_bytes.
  destruct (endianness tgt); repeat split; reflexivity.
Qed.

Lemma le_u32 (x : Z) : le_value (le_bytes 4 (u32 x)) = u32 x.
Proof.
  rewrite le_value_bytes. unfold u32. change (8 * Z.of_nat 4) with 32.
  apply Z.mod_mod. lia.
Qed.

Lemma le_u16 (x : Z) : le_value (le_bytes 2 (u16 x)) = u16 x.
Proof.
  rewrite le_value_bytes. unfold u16. change (8 * Z.of_nat 2) with 16.
  apply Z.mod_mod. lia.
Qed.

Lemma le_float (x : float) :
  f_valid x -> x <> S754_nan ->
  float_of_bits (le_value (le_bytes 4 (bits_of_float x))) = x.
Proof.
  intros V N. rewrite le_value_bytes. change (8 * Z.of_nat 4) with 32.
  rewrite Z.mod_small by now apply bits_of_float_range.
  now apply float_of_bits_of_float.
Qed.

(** C2, as amended.  Every frame is 49 bytes: the header 0xAA 0x55, the
    46 bytes of the payload, the checksum.  The payload is the image in
    memory of the packed struct: the fields [t_ms], [ticksFL], [ticksFR],
    [ticksBL], [ticksBR], [ax], [ay], [az], [gx], [gy], [gz], [flags] at
    offsets 2, 6, .., 46 of the frame with no padding, each in the byte
    order of the target.  On a little-endian target such as the STM32F103
    each field therefore reads back, least significant byte first, as the
    value stored (32-bit two's complement for the counts, the binary32
    pattern for the floats). *)
Theorem C2_frame_layout :
  forall (tgt : Target) (p : Payload.t),
    let f := frame tgt p in
    let o := endianness tgt in
    length f = 49%nat /\
    slice 0 2 f = [0xAA; 0x55] /\
    slice 2 46 f =
      obj_bytes o 4 (u32 (Payload.t_ms p)) ++
      obj_bytes o 4 (u32 (Payload.ticksFL p)) ++
      obj_bytes o 4 (u32 (Payload.ticksFR p)) ++
      obj_bytes o 4 (u32 (Payload.ticksBL p)) ++
      obj_bytes o 4 (u32 (Payload.ticksBR p)) ++
      obj_bytes o 4 (bits_of_float (Payload.ax p)) ++
      obj_bytes o 4 (bits_of_float (Payload.ay p)) ++
      obj_bytes o 4 (bits_of_float (Payload.az p)) ++
      obj_bytes o 4 (bits_of_float (Payload.gx p)) ++
      obj_bytes o 4 (bits_of_float (Payload.gy p)) ++
      obj_bytes o 4 (bits_of_float (Payload.gz p)) ++
      obj_bytes o 2 (u16 (Payload.flags p)) /\
    nth 48 f 0 = xor_all (slice 2 46 f) /\
    (o = LittleEndian ->
     le_value (slice 2 4 f) = u32 (Payload.t_ms p) /\
     i32 (le_value (slice 6 4 f)) = i32 (Payload.ticksFL p) /\
     i32 (le_value (slice 10 4 f)) = i32 (Payload.ticksFR p) /\
     i32 (le_value (slice 14 4 f)) = i32 (Payload.ticksBL p) /\
     i32 (le_value (slice 18 4 f)) = i32 (Payload.ticksBR p)) /\
    (o = LittleEndian ->
     (forall x, In x [Payload.ax p; Payload.ay p; Payload.az p;
                      Payload.gx p; Payload.gy p; Payload.gz p] ->
                f_valid x /\ x <> S754_nan) ->
     float_of_bits (le_value (slice 22 4 f)) = Payload.ax p /\
     float_of_bits (le_value (slice 26 4 f)) = Payload.ay p /\
     float_of_bits (le_value (slice 30 4 f)) = Payload.az p /\
     float_of_bits (le_value (slice 34 4 f)) = Payload.gx p /\
     float_of_bits (le_value (slice 38 4 f)) = Payload.gy p /\
     float_of_bits (le_value (slice 42 4 f)) = Payload.gz p) /\
    (o = LittleEndian -> le_value (slice 46 2 f) = u16 (Payload.flags p)).
Proof.
  intros tgt p f o.
  pose proof (frame_fields tgt p) as F. cbv zeta in F. fold f o in F.
  destruct F as (F0 & F1 & F2 & F3 & F4 & F5 & F6 & F7 & F8 & F9 & F10 & F11 & F12).
  split; [apply frame_length|]. split; [exact F0|].
  split; [apply frame_payload|].
  split; [unfold f; now rewrite frame_payload, frame_checksum|].
  split; [|split].
  - intros Ho. rewrite F1, F2, F3, F4, F5, Ho.
    cbn [obj_bytes]. rewrite !le_u32, !i32_u32.
    repeat (split; [reflexivity|]). reflexivity.
  - intros Ho V. rewrite F6, F7, F8, F9, F10, F11, Ho. cbn [obj_bytes].
    assert (L : forall x, In x [Payload.ax p; Payload.ay p; Payload.az p;
                                Payload.gx p; Payload.gy p; Payload.gz p] ->
                          float_of_bits (le_value (le_bytes 4 (bits_of_float x))) = x).
    { intros x Hx. destruct (V x Hx). now apply le_float. }
    repeat split; apply L; simpl; auto 10.
  - intros Ho. rewrite F12, Ho. apply le_u16.
Qed.

(** ** Sensor conversion *)

(** The literals are the binary32 values nearest to the decimals written
    in the source. *)
Lemma literals_nearest :
  (Qabs (F2Q lit_9_80665 - (980665 # 100000)) <= 1 # 2 ^ 21)%Q /\
  (Qabs (F2Q lit_0_001064225 - (1064225 # 1000000000)) <= 1 # 2 ^ 34)%Q /\
  (F2Q lit_8192 == 8192)%Q /\
  f_valid lit_9_80665 /\ f_valid lit_0_001064225 /\ f_valid lit_8192.
Proof. repeat split; vm_compute; congruence. Qed.

Lemma ACCEL_S_value :
  ACCEL_S = S754_finite false 10283018 (-33) /\
  (F2Q ACCEL_S == F2Q lit_9_80665 / 8192)%Q.
Proof. split; vm_compute; reflexivity. Qed.

Lemma all_from_spec (f : Z -> bool) (n : nat) : forall lo,
  all_from n lo f = true ->
  forall x, lo <= x < lo + Z.of_nat n -> f x = true.
Proof.
  induction n as [|n IH]; intros lo H x Hx; [lia|].
  cbn [all_from] in H. apply andb_prop in H. destruct H as [H1 H2].
  destruct (Z.eq_dec x lo) as [->|Hne]; [exact H1|].
  apply (IH (lo + 1) H2). lia.
Qed.

Lemma all_i16_spec (f : Z -> bool) :
  all_i16 f = true -> forall x, is_i16 x -> f x = true.
Proof.
  unfold all_i16, is_i16. intros H x Hx.
  apply (all_from_spec f _ _ H). rewrite Z2Nat.id; lia.
Qed.

Lemma close_b_to (f : float) (x : Q) : close_b f x = true -> close_to f x.
Proof.
  unfold close_b, close_to. intros H. apply andb_prop in H.
  destruct H as [H1 H2]. split; [exact H1|]. now apply Qle_bool_iff.
Qed.

Lemma accel_all : all_i16 accel_ok = true.
Proof. vm_compute. reflexivity. Qed.

Lemma gyro_all : all_i16 gyro_ok = true.
Proof. vm_compute. reflexivity. Qed.

Lemma accel_close (raw : Z) :
  is_i16 raw ->
  close_to (f_mul (f_of_int raw) ACCEL_S) (inject_Z raw * accel_scale).
Proof.
  intros H. apply close_b_to. now apply (all_i16_spec accel_ok accel_all).
Qed.

Lemma gyro_close (raw : Z) :
  is_i16 raw ->
  close_to (f_mul (f_of_int raw) GYRO_S) (inject_Z raw * gyro_scale).
Proof.
  intros H. apply close_b_to. now apply (all_i16_spec gyro_ok gyro_all).
Qed.

Lemma i16_range (x : Z) : is_i16 (i16 x).
Proof.
  unfold is_i16, i16, signed.
  pose proof (Z.mod_pos_bound (x + 2 ^ (16 - 1)) (2 ^ 16) ltac:(lia)). lia.
Qed.

(** [(hi << 8) | lo] is [256 * hi + lo] on bytes. *)
Lemma raw16_big_endian (hi lo : Z) :
  is_byte hi -> is_byte lo -> raw16 hi lo = i16 (2 ^ 8 * hi + lo).
Proof.
  unfold is_byte, raw16. intros Hh Hl. f_equal.
  rewrite Z.shiftl_mul_pow2 by lia.
  rewrite <- Z.lxor_lor.
  - rewrite <- Z.add_nocarry_lxor; [lia|].
    apply Z.bits_inj_0. intros n. rewrite Z.land_spec.
    destruct (Z.ltb_spec n 0) as [Hn|Hn].
    { now rewrite Z.testbit_neg_r. }
    destruct (Z.ltb_spec n 8) as [Hn8|Hn8].
    + rewrite Z.mul_pow2_bits_low by lia. reflexivity.
    + rewrite (Z.bits_above_log2 lo n), andb_false_r; [reflexivity|lia|].
      destruct (Z.eq_dec lo 0) as [->|]; [simpl; lia|].
      apply Z.lt_le_trans with 8; [|lia]. apply Z.log2_lt_pow2; lia.
  - apply Z.bits_inj_0. intros n. rewrite Z.land_spec.
    destruct (Z.ltb_spec n 0) as [Hn|Hn].
    { now rewrite Z.testbit_neg_r. }
    destruct (Z.ltb_spec n 8) as [Hn8|Hn8].
    + rewrite Z.mul_pow2_bits_low by lia. reflexivity.
    + rewrite (Z.bits_above_log2 lo n), andb_false_r; [reflexivity|lia|].
      destruct (Z.eq_dec lo 0) as [->|]; [simpl; lia|].
      apply Z.lt_le_trans with 8; [|lia]. apply Z.log2_lt_pow2; lia.
Qed.

Lemma rd_byte (a : list Z) (i : Z) : Forall is_byte a -> is_byte (rd a i).
Proof.
  intros H. unfold rd.
  destruct (Nat.lt_ge_cases (Z.to_nat i) (length a)) as [L|L].
  - rewrite Forall_forall in H. apply H, nth_In, L.
  - rewrite nth_overflow by exact L. unfold is_byte. lia.
Qed.

Lemma f_sub_zero (x : float) : f_sub x f_zero = x.
Proof. destruct x as [[|]|[|]| |s m e]; reflexivity. Qed.

Lemma mpu_read_with_sample (burst : burst_read) (s : Sample) (m : Machine) :
  let r := burst REG_ACCEL_XOUT_H 14 (repeat 0 14%nat) m in
  let buf := snd (fst r) in
  u8 (fst (fst r)) = 14 ->
  mpu_read_with burst s m
  = (1, mkSample
          (f_mul (f_of_int (raw16 (rd buf 0) (rd buf 1))) ACCEL_S)
          (f_mul (f_of_int (raw16 (rd buf 2) (rd buf 3))) ACCEL_S)
          (f_mul (f_of_int (raw16 (rd buf 4) (rd buf 5))) ACCEL_S)
          (f_mul (f_of_int (raw16 (rd buf 8) (rd buf 9))) GYRO_S)
          (f_mul (f_of_int (raw16 (rd buf 10) (rd buf 11))) GYRO_S)
          (f_sub (f_mul (f_of_int (raw16 (rd buf 12) (rd buf 13))) GYRO_S)
                 (gyro_bias_z (snd r))),
     snd r).
Proof.
  cbv zeta. intros H. unfold mpu_read_with. rewrite bind_eq.
  destruct (burst REG_ACCEL_XOUT_H 14 (repeat 0 14%nat) m) as [[r buf] m1].
  cbn [fst snd] in *. rewrite H. reflexivity.
Qed.

(** C6. When the burst read delivers its 14 bytes, [mpu_read] rebuilds
    each axis as the signed 16-bit number whose high byte comes first
    (bytes 0..5 for the accelerometer, 8..13 for the gyro, bytes 6 and 7
    skipped) and returns
    - for the accelerometer, the single-precision product of the raw value
      and [9.80665f / 8192.0f], which is within a relative error of 2^-23
      of raw * 9.80665 / 8192;
    - for the gyro, the single-precision product of the raw value and
      [0.001064225f], within 2^-23 of raw * 0.001064225, and for Z that
      product minus the calibrated bias (in single precision).
    For the bytes 0x10 0x00 on accel X (raw 4096) the result is
    10283018 * 2^-21 = 4.9033250808..., within 10^-6 of
    4096 * 9.80665 / 8192. *)
Theorem C6_sample_conversion :
  forall (burst : burst_read) (s : Sample) (m : Machine),
    let r := burst REG_ACCEL_XOUT_H 14 (repeat 0 14%nat) m in
    let buf := snd (fst r) in
    let out := snd (fst (mpu_read_with burst s m)) in
    let raw := fun i => i16 (2 ^ 8 * rd buf i + rd buf (i + 1)) in
    u8 (fst (fst r)) = 14 ->
    Forall is_byte buf ->
    fst (fst (mpu_read_with burst s m)) = 1 /\
    (ax out = f_mul (f_of_int (raw 0)) ACCEL_S /\
     ay out = f_mul (f_of_int (raw 2)) ACCEL_S /\
     az out = f_mul (f_of_int (raw 4)) ACCEL_S /\
     gx out = f_mul (f_of_int (raw 8)) GYRO_S /\
     gy out = f_mul (f_of_int (raw 10)) GYRO_S /\
     gz out = f_sub (f_mul (f_of_int (raw 12)) GYRO_S) (gyro_bias_z (snd r))) /\
    (close_to (ax out) (inject_Z (raw 0) * accel_scale) /\
     close_to (ay out) (inject_Z (raw 2) * accel_scale) /\
     close_to (az out) (inject_Z (raw 4) * accel_scale) /\
     close_to (gx out) (inject_Z (raw 8) * gyro_scale) /\
     close_to (gy out) (inject_Z (raw 10) * gyro_scale) /\
     close_to (f_mul (f_of_int (raw 12)) GYRO_S) (inject_Z (raw 12) * gyro_scale)) /\
    (gyro_bias_z (snd r) = f_zero ->
     close_to (gz out) (inject_Z (raw 12) * gyro_scale)) /\
    (rd buf 0 = 0x10 -> rd buf 1 = 0x00 ->
     raw 0 = 4096 /\
     ax out = S754_finite false 10283018 (-21) /\
     (Qabs (F2Q (ax out) - 4096 * (980665 # 100000) / 8192) <= 1 # 1000000)%Q /\
     (4903 # 1000 < F2Q (ax out))%Q /\ (F2Q (ax out) < 4904 # 1000)%Q).
Proof.
  intros burst s m r buf out raw Hr Hb.
  pose proof (mpu_read_with_sample burst s m Hr) as E. fold r buf in E.
  assert (R : forall i, raw16 (rd buf i) (rd buf (i + 1)) = raw i).
  { intros i. apply raw16_big_endian; now apply rd_byte. }
  change 1 with (0 + 1) in E at 2. change 3 with (2 + 1) in E.
  change 5 with (4 + 1) in E. change 9 with (8 + 1) in E.
  change 11 with (10 + 1) in E. change 13 with (12 + 1) in E.
  rewrite !R in E.
  assert (I : forall i, is_i16 (raw i)) by (intros; apply i16_range).
  unfold out. rewrite E. cbn [fst snd ax ay az gx gy gz].
  split; [reflexivity|]. split; [repeat split|].
  split.
  { exact (conj (accel_close _ (I 0))
             (conj (accel_close _ (I 2))
                (conj (accel_close _ (I 4))
                   (conj (gyro_close _ (I 8))
                      (conj (gyro_close _ (I 10)) (gyro_close _ (I 12))))))). }
  split.
  - intros ->. rewrite f_sub_zero. apply gyro_close, I.
  - intros H0 H1. unfold raw. change (0 + 1) with 1. rewrite H0, H1.
    repeat split; vm_compute; congruence.
Qed.

Lemma C6_sample_conversion_witness :
  let burst : burst_read :=
    fun _ _ _ => ret (14, [0x10; 0; 0; 0; 0; 0; 0; 0; 0; 0; 0; 0; 0xFF; 0xFF]) in
  let out := snd (fst (mpu_read_with burst Sample_zero (reset 0 0))) in
  ax out = S754_finite false 10283018 (-21) /\
  gz out = f_mul (f_of_int (-1)) GYRO_S.
Proof.
  intros burst out.
  assert (Hr : u8 (fst (fst (burst REG_ACCEL_XOUT_H 14 (repeat 0 14%nat) (reset 0 0))))
               = 14) by reflexivity.
  assert (Hb : Forall is_byte
                 (snd (fst (burst REG_ACCEL_XOUT_H 14 (repeat 0 14%nat) (reset 0 0))))).
  { repeat constructor; unfold is_byte; simpl; lia. }
  destruct (C6_sample_conversion burst Sample_zero (reset 0 0) Hr Hb)
    as (_ & (_ & _ & _ & _ & _ & Hz) & _ & _ & Hx).
  split.
  - apply Hx; reflexivity.
  - unfold out. rewrite Hz. vm_compute. reflexivity.
Defined.

(** ** Calibration *)

Lemma for_each_fst {A : Type} (body : Z -> A -> M A) (g : Z -> A -> A) :
  (forall i a m, fst (body i a m) = g i a) ->
  forall l a m, fst (for_each l body a m) = fold_left (fun a i => g i a) l a.
Proof.
  intros Hb. induction l as [|i l IH]; intros a m; cbn [for_each fold_left].
  - reflexivity.
  - now rewrite bind_eq, IH, Hb.
Qed.

(** On a sensor whose data register always reads [b], a burst read fills
    the buffer with [b]. *)
Lemma steady_sensor_burst (tgt : Target) (b : Z) (m : Machine) :
  snd (fst (i2c_read_burst tgt (steady_sensor b) REG_ACCEL_XOUT_H 14
              (repeat 0 14%nat) m))
  = repeat (u8 b) 14.
Proof.
  unfold i2c_read_burst. rewrite !bind_eq. cbn [ret fst snd].
  rewrite (for_each_fst _ (fun i dst => wr dst i (u8 b))).
  - reflexivity.
  - intros i a m'. rewrite bind_eq. cbn [ret fst].
    destruct (i =? 14 - 1); unfold i2c_read_nack, i2c_read_ack;
      now rewrite !bind_eq.
Qed.

Lemma steady_sensor_steady (tgt : Target) (b : Z) :
  steady tgt (steady_sensor b) (raw16 (u8 b) (u8 b)).
Proof. intros m. cbv zeta. now rewrite steady_sensor_burst. Qed.

Lemma i2c_only_bias {A : Type} (c : M A) (m : Machine) :
  i2c_only c -> gyro_bias_z (snd (c m)) = gyro_bias_z m.
Proof. intros H. rewrite (H m). reflexivity. Qed.

(** One successful [mpu_read]: the gyro-Z it reports. *)
Lemma mpu_read_gz (tgt : Target) (dev : Sensor) (s : Sample) (m : Machine) :
  let buf := snd (fst (i2c_read_burst tgt dev REG_ACCEL_XOUT_H 14
                         (repeat 0 14%nat) m)) in
  gz (snd (fst (mpu_read tgt dev s m)))
  = f_sub (gyro_sample (raw16 (rd buf 12) (rd buf 13))) (gyro_bias_z m).
Proof.
  cbv zeta. unfold mpu_read.
  rewrite mpu_read_with_sample by now rewrite i2c_read_burst_count.
  cbn [fst snd gz]. unfold gyro_sample.
  now rewrite i2c_only_bias by apply i2c_only_read_burst.
Qed.

Lemma calib_loop_eq (tgt : Target) (dev : Sensor) (l : list Z) :
  forall sum m,
    fst (for_each l
           (fun _ sum =>
              bind (mpu_read_with (i2c_read_burst tgt dev) Sample_zero)
                (fun x => let '(ok, s) := x in
                   bind (get gyro_bias_z)
                     (fun bias =>
                        let sum := if u8 ok =? 0 then sum
                                   else f_add sum (f_add (gz s) bias) in
                        bind (delay_ms 2) (fun _ => ret sum))))
           sum m)
    = fold_left f_add (calib_samples tgt dev (length l) m) sum.
Proof.
  induction l as [|i l IH]; intros sum m; [reflexivity|].
  cbn [for_each length calib_samples]. rewrite bind_eq.
  change (mpu_read_with (i2c_read_burst tgt dev)) with (mpu_read tgt dev).
  rewrite bind_eq. pose proof (mpu_read_ok tgt dev Sample_zero m) as Hok.
  destruct (mpu_read tgt dev Sample_zero m) as [[ok s] m1].
  cbn [fst snd] in *. subst ok. rewrite !bind_eq. cbn [get delay_ms ret fst snd].
  change (u8 1 =? 0) with false. cbv iota. cbn [fold_left]. apply IH.
Qed.

Lemma calibrate_bias (tgt : Target) (dev : Sensor) (m : Machine) :
  gyro_bias_z (snd (calibrate tgt dev m))
  = f_div (fold_left f_add (calib_samples tgt dev 400 m) f_zero) (f_of_int 400).
Proof.
  unfold calibrate, calibrate_with. rewrite bind_eq. cbn [modify snd].
  rewrite calib_loop_eq. reflexivity.
Qed.

Lemma calib_samples_length (tgt : Target) (dev : Sensor) (n : nat) :
  forall m, length (calib_samples tgt dev n m) = n.
Proof.
  induction n as [|n IH]; intros m; [reflexivity|].
  cbn [calib_samples]. destruct (mpu_read tgt dev Sample_zero m) as [[ok s] m1].
  cbn [length]. now rewrite IH.
Qed.

Lemma calib_samples_steady (tgt : Target) (dev : Sensor) (V : Z) (n : nat) :
  steady tgt dev V ->
  forall m,
    calib_samples tgt dev n m = repeat (calib_term (gyro_bias_z m) V) n.
Proof.
  intros HV. induction n as [|n IH]; intros m; [reflexivity|].
  cbn [calib_samples repeat].
  pose proof (mpu_read_gz tgt dev Sample_zero m) as G. cbv zeta in G.
  rewrite (HV m) in G.
  pose proof (i2c_only_bias _ m (i2c_only_mpu_read tgt dev Sample_zero)) as B.
  destruct (mpu_read tgt dev Sample_zero m) as [[ok s] m1].
  cbn [fst snd] in *. rewrite IH, G, B. reflexivity.
Qed.

Lemma fold_left_repeat (x : float) (n : nat) : forall s,
  fold_left f_add (repeat x n) s = sum_const x n s.
Proof. induction n; intros; simpl; auto. Qed.

Lemma sum_const_zero (n : nat) : sum_const f_zero n f_zero = f_zero.
Proof. induction n; simpl; auto. Qed.

(** C7, as amended.  The calibration sets the bias to the single-precision
    mean of what its 400 passes read: the values [gz + gyro_bias_z] are
    added up in order and the sum is divided by 400, every operation
    rounded to binary32.  When the sensor delivers the same raw value [V]
    throughout (and the bias variable still holds its initial 0), the bias
    is that mean of 400 equal terms, [bias_of V], and every later
    [mpu_read] reports the rounded difference between [V] scaled and that
    bias as gyro-Z.  For [V = 0] the bias is 0 and the reported gyro-Z is
    0. *)
Theorem C7_calibration_mean :
  forall (tgt : Target) (dev : Sensor) (m : Machine),
    gyro_bias_z (snd (calibrate tgt dev m))
    = f_div (fold_left f_add (calib_samples tgt dev 400 m) f_zero) (f_of_int 400) /\
    length (calib_samples tgt dev 400 m) = 400%nat /\
    (forall V,
       steady tgt dev V -> gyro_bias_z m = f_zero ->
       calib_samples tgt dev 400 m = repeat (calib_term f_zero V) 400 /\
       gyro_bias_z (snd (calibrate tgt dev m)) = bias_of V /\
       (forall s m',
          gyro_bias_z m' = gyro_bias_z (snd (calibrate tgt dev m)) ->
          gz (snd (fst (mpu_read tgt dev s m')))
          = f_sub (gyro_sample V) (bias_of V)) /\
       (V = 0 ->
        gyro_bias_z (snd (calibrate tgt dev m)) = f_zero /\
        forall s m',
          gyro_bias_z m' = gyro_bias_z (snd (calibrate tgt dev m)) ->
          gz (snd (fst (mpu_read tgt dev s m'))) = f_zero)).
Proof.
  intros tgt dev m.
  split; [apply calibrate_bias|]. split; [apply calib_samples_length|].
  intros V HV H0.
  assert (S : calib_samples tgt dev 400 m = repeat (calib_term f_zero V) 400).
  { rewrite (calib_samples_steady tgt dev V 400 HV m). now rewrite H0. }
  assert (B : gyro_bias_z (snd (calibrate tgt dev m)) = bias_of V).
  { unfold bias_of. rewrite <- fold_left_repeat, <- S. apply calibrate_bias. }
  assert (G : forall s m',
             gyro_bias_z m' = gyro_bias_z (snd (calibrate tgt dev m)) ->
             gz (snd (fst (mpu_read tgt dev s m')))
             = f_sub (gyro_sample V) (bias_of V)).
  { intros s m' Hm'. pose proof (mpu_read_gz tgt dev s m') as E. cbv zeta in E.
    now rewrite (HV m'), Hm', B in E. }
  split; [exact S|]. split; [exact B|]. split; [exact G|].
  intros ->.
  assert (Z0 : bias_of 0 = f_zero) by (vm_compute; reflexivity).
  split; [now rewrite B|].
  intros s m' Hm'. rewrite (G s m' Hm'), Z0. reflexivity.
Qed.

Lemma C7_calibration_mean_witness :
  let dev := steady_sensor 0 in
  let m := snd (calibrate stm32f103 dev (reset 0 0)) in
  gyro_bias_z m = f_zero /\
  gz (snd (fst (mpu_read stm32f103 dev Sample_zero m))) = f_zero.
Proof.
  intros dev m.
  destruct (C7_calibration_mean stm32f103 dev (reset 0 0)) as (_ & _ & H).
  destruct (H 0 (steady_sensor_steady stm32f103 0) eq_refl) as (_ & _ & _ & H0).
  destruct (H0 eq_refl) as [Hb Hg].
  split; [exact Hb|]. apply Hg. reflexivity.
Defined.

(** C7 as stated fails: on a sensor that reads 0x01 in every data byte
    (raw gyro-Z 257 throughout) the calibrated bias is 9177343 * 2^-25
    while 257 scaled is 9177332 * 2^-25, and the next [mpu_read] reports
    gyro-Z = -11534336 * 2^-45 = -11 * 2^-25, not 0. *)
Lemma C7_counterexample :
  let dev := steady_sensor 1 in
  let m := snd (calibrate stm32f103 dev (reset 0 0)) in
  steady stm32f103 dev 257 /\
  gyro_sample 257 = S754_finite false 9177332 (-25) /\
  gyro_bias_z m = S754_finite false 9177343 (-25) /\
  gyro_bias_z m <> gyro_sample 257 /\
  gz (snd (fst (mpu_read stm32f103 dev Sample_zero m)))
  = S754_finite true 11534336 (-45) /\
  gz (snd (fst (mpu_read stm32f103 dev Sample_zero m))) <> f_zero.
Proof.
  intros dev m.
  assert (B : gyro_bias_z m = S754_finite false 9177343 (-25))
    by (vm_compute; reflexivity).
  assert (G : gz (snd (fst (mpu_read stm32f103 dev Sample_zero m)))
              = S754_finite true 11534336 (-45)) by (vm_compute; reflexivity).
  split; [exact (steady_sensor_steady stm32f103 1)|].
  split; [vm_compute; reflexivity|].
  split; [exact B|]. split; [rewrite B; vm_compute; discriminate|].
  split; [exact G|]. rewrite G. discriminate.
Qed.

Lemma C2_frame_layout_witness :
  let p := Payload.mk 0x01020304 (-2) 0 0 0 lit_9_80665 f_zero f_zero
             f_zero f_zero f_zero 1 in
  let f := frame stm32f103 p in
  le_value (slice 2 4 f) = 0x01020304 /\
  i32 (le_value (slice 6 4 f)) = -2 /\
  float_of_bits (le_value (slice 22 4 f)) = lit_9_80665 /\
  le_value (slice 46 2 f) = 1.
Proof.
  intros p f.
  destruct (C2_frame_layout stm32f103 p) as (_ & _ & _ & _ & H1 & H2 & H3).
  destruct (H1 eq_refl) as (Ht & Hfl & _).
  assert (V : forall x, In x [Payload.ax p; Payload.ay p; Payload.az p;
                              Payload.gx p; Payload.gy p; Payload.gz p] ->
                        f_valid x /\ x <> S754_nan).
  { intros x Hx. simpl in Hx.
    repeat (destruct Hx as [<- | Hx]; [split; [reflexivity|discriminate]|]).
    destruct Hx. }
  destruct (H2 eq_refl V) as (Hax & _).
  split; [exact Ht|]. split; [exact Hfl|]. split; [exact Hax|].
  exact (H3 eq_refl).
Defined.

(** C2 as stated fails: the bytes sent are the image of the struct in
    memory, in no way normalised.  On a big-endian target the frame of a
    payload with [t_ms = 1] carries 00 00 00 01 in bytes 2..5, which reads
    as 16777216 in little-endian order. *)
Lemma C2_counterexample :
  slice 2 4 (frame big_endian_target payload_t1) = [0; 0; 0; 1] /\
  le_value (slice 2 4 (frame big_endian_target payload_t1)) = 16777216 /\
  le_value (slice 2 4 (frame big_endian_target payload_t1))
  <> Payload.t_ms payload_t1 /\
  ~ (forall tgt p, le_value (slice 2 4 (frame tgt p)) = u32 (Payload.t_ms p)).
Proof.
  assert (E : slice 2 4 (frame big_endian_target payload_t1) = [0; 0; 0; 1])
    by (vm_compute; reflexivity).
  split; [exact E|]. rewrite E.
  split; [reflexivity|]. split; [discriminate|].
  intros H. specialize (H big_endian_target payload_t1).
  rewrite E in H. discriminate H.
Qed.
